(** * Damage accumulation and reset detection of [damage_ocr.py]

    A shallow embedding of the loop of [OCRProcessorApp.process_ocr]
    (src/damage_ocr.py, lines 147-386) and of the properties the
    specification states about it.

    Python's [float] is IEEE 754 binary64, which is what Rocq's primitive
    [float] is: the arithmetic of the loop ([+], [-], [*], [/], [<], [>=],
    [==]) is written with the primitive operations and reasoned about
    through their specification on [spec_float].  Python's [int] is
    unbounded; the two OCR readings are naturals ([N]) because
    [get_number_from_ocr_text] returns [int] of a run of digits, or 0. *)

From Stdlib Require Import ZArith Floats Lia List Sorted.
From Stdlib Require Uint63.
From stdpp Require Import gmap sorting.
From Stdlib Require Import Ascii String DecimalString DecimalN.
Import ListNotations.

Set Warnings "-inexact-float".
#[local] Open Scope Z_scope.

(** ** Outcomes of a run

    [process_ocr] either appends its rows to the sheet, or leaves through
    one of its early [return]s, or is aborted by the [OverflowError] that
    Python raises when an [int] too large for a [float] meets a [float] in
    arithmetic.  [OutOfFuel] belongs to the model of the [while] loop
    only (see [process_ocr_fuel]). *)
Inductive outcome (A : Type) : Type :=
| Done (a : A)
| InputError
| NoImages
| OverflowError
| OutOfFuel.
Arguments Done {A} a.
Arguments InputError {A}.
Arguments NoImages {A}.
Arguments OverflowError {A}.
Arguments OutOfFuel {A}.

#[global] Instance outcome_bind : MBind outcome := fun A B k c =>
  match c with
  | Done a => k a
  | InputError => InputError
  | NoImages => NoImages
  | OverflowError => OverflowError
  | OutOfFuel => OutOfFuel
  end.

(** ** Floats of integers

    The conversion Python applies to the [int] operand of [int / float]
    and [int + float]: the nearest binary64 value, ties to even, and
    [OverflowError] when that would be an infinity. *)
Definition float_of_int (n : N) : outcome float :=
  match binary_normalize prec emax (Z.of_N n) 0 false with
  | S754_infinity _ => OverflowError
  | s => Done (SF2Prim s)
  end.

(** ** State and rows *)

(** The locals of [process_ocr] that live across iterations (lines 199-215). *)
Record state : Type := mk_state {
  overall_accumulated_damage : float;
  last_successful_ocr_value_in_current_phase : float;
  reset_offset : float;
  last_valid_jo : N;
  last_valid_uk : N;
  previous_total_damage_for_diff : float
}.

Definition initial_state : state :=
  {| overall_accumulated_damage := 0%float;
     last_successful_ocr_value_in_current_phase := 0%float;
     reset_offset := 0%float;
     last_valid_jo := 0%N;
     last_valid_uk := 0%N;
     previous_total_damage_for_diff := 0%float |}.

(** One appended [row_data] (lines 349-356). *)
Record row_data : Type := mk_row {
  current_frame_to_process : Z;
  trillion_val_for_excel : N;
  hundred_million_val_for_excel : N;
  current_total_damage_to_log : float;
  damage_change : float
}.

Definition RESET_DROP_FACTOR : float := 0.01%float.
Definition SMALL_ABSOLUTE_RESET_THRESHOLD : float := 0.00001%float.

(** ** The body of the loop *)

(** Line 256: [trillion_val + (hundred_million_val / 10000.0)]. *)
Definition raw_current_damage_from_ocr (trillion_val hundred_million_val : N)
  : outcome float :=
  h ← float_of_int hundred_million_val;
  t ← float_of_int trillion_val;
  Done (t + h / 10000)%float.

(** Lines 275-277: the condition of the reset [if]. *)
Definition is_reset_detected (st : state) (raw : float) : bool :=
  (0 <? last_successful_ocr_value_in_current_phase st)%float
  && (raw <? last_successful_ocr_value_in_current_phase st * RESET_DROP_FACTOR)%float
  && (raw <? SMALL_ABSOLUTE_RESET_THRESHOLD)%float.

(** Lines 275-285: the reset [if] as a whole. *)
Definition reset_block (st : state) (raw : float) : state :=
  if is_reset_detected st raw then
    {| overall_accumulated_damage := overall_accumulated_damage st;
       last_successful_ocr_value_in_current_phase := 0%float;
       reset_offset := overall_accumulated_damage st;
       last_valid_jo := last_valid_jo st;
       last_valid_uk := last_valid_uk st;
       previous_total_damage_for_diff := previous_total_damage_for_diff st |}
  else st.

(** Line 288. *)
Definition current_calculated_overall_damage (st : state) (raw : float) : float :=
  (raw + reset_offset st)%float.

(** Line 293: the test of the rejection branch. *)
Definition is_rejected (st : state) (raw : float) : bool :=
  (current_calculated_overall_damage st raw <? overall_accumulated_damage st)%float.

(** Line 314: the test that re-seeds the phase baseline. *)
Definition updates_phase_value (st : state) (is_reset : bool) (raw : float) : bool :=
  (0 <? raw)%float
  && ((last_successful_ocr_value_in_current_phase st <=? raw)%float || is_reset).

(** Lines 288-324: [st] is the state after the reset [if]; the result is
    the state before the delta computation and the three values logged:
    the two components and [current_total_damage_to_log]. *)
Definition monotonic_block (st : state) (is_reset : bool)
    (trillion_val hundred_million_val : N) (raw : float) : state * (N * N * float) :=
  if is_rejected st raw then
    ({| overall_accumulated_damage := overall_accumulated_damage st;
        last_successful_ocr_value_in_current_phase :=
          last_successful_ocr_value_in_current_phase st;
        reset_offset := reset_offset st;
        last_valid_jo := last_valid_jo st;
        last_valid_uk := last_valid_uk st;
        previous_total_damage_for_diff := previous_total_damage_for_diff st |},
     (last_valid_jo st, last_valid_uk st, overall_accumulated_damage st))
  else
    ({| overall_accumulated_damage := current_calculated_overall_damage st raw;
        last_successful_ocr_value_in_current_phase :=
          if updates_phase_value st is_reset raw then raw
          else last_successful_ocr_value_in_current_phase st;
        reset_offset := reset_offset st;
        last_valid_jo := trillion_val;
        last_valid_uk := hundred_million_val;
        previous_total_damage_for_diff := previous_total_damage_for_diff st |},
     (trillion_val, hundred_million_val, current_calculated_overall_damage st raw)).

(** Lines 247-324: the branch taken when both images exist. *)
Definition present_branch (st : state) (trillion_val hundred_million_val : N)
  : outcome (state * (N * N * float)) :=
  raw ← raw_current_damage_from_ocr trillion_val hundred_million_val;
  let is_reset := is_reset_detected st raw in
  Done (monotonic_block (reset_block st raw) is_reset
          trillion_val hundred_million_val raw).

(** Lines 326-332: the branch taken when an image is missing. *)
Definition absent_branch (st : state) : state * (N * N * float) :=
  (st, (last_valid_jo st, last_valid_uk st, overall_accumulated_damage st)).

(** Lines 337-344. *)
Definition compute_damage_change (previous total : float) : float :=
  if ((previous =? 0) && (0 <? total))%float then total
  else if (previous <=? total)%float then (total - previous)%float
  else 0%float.

(** Lines 335-356: the delta, the update of
    [previous_total_damage_for_diff], and the row. *)
Definition log_row (frame : Z) (r : state * (N * N * float)) : state * row_data :=
  let '(st, (jo, uk, total)) := r in
  ({| overall_accumulated_damage := overall_accumulated_damage st;
      last_successful_ocr_value_in_current_phase :=
        last_successful_ocr_value_in_current_phase st;
      reset_offset := reset_offset st;
      last_valid_jo := last_valid_jo st;
      last_valid_uk := last_valid_uk st;
      previous_total_damage_for_diff := total |},
   {| current_frame_to_process := frame;
      trillion_val_for_excel := jo;
      hundred_million_val_for_excel := uk;
      current_total_damage_to_log := total;
      damage_change :=
        compute_damage_change (previous_total_damage_for_diff st) total |}).

(** What the reducer is given for a frame: the two decoded values, or
    nothing. *)
Definition reading : Type := option (N * N).

(** Lines 230-362 with the two lookups already done. *)
Definition process_reading (st : state) (frame : Z) (rd : reading)
  : outcome (state * row_data) :=
  match rd with
  | Some (trillion_val, hundred_million_val) =>
      r ← present_branch st trillion_val hundred_million_val;
      Done (log_row frame r)
  | None => Done (log_row frame (absent_branch st))
  end.

(** ** The images

    [trillion_map] and [hundred_million_map] map a frame number to the
    path of its image (lines 176-177); the path is only ever given to
    [ocr_image], whose text goes to [get_number_from_ocr_text].  Both are
    outside the reconstruction, so a map here holds, for each frame that
    has an image, the number read from it.  A path is never the empty
    string, so the truth test of line 247 is the presence of both keys. *)
Definition frame_reading (trillion_map hundred_million_map : gmap Z N) (frame : Z)
  : reading :=
  match trillion_map !! frame, hundred_million_map !! frame with
  | Some trillion_val, Some hundred_million_val =>
      Some (trillion_val, hundred_million_val)
  | _, _ => None
  end.

(** One iteration of the [while] (lines 230-364, the increment apart). *)
Definition loop_body (trillion_map hundred_million_map : gmap Z N)
    (st : state) (frame : Z) : outcome (state * row_data) :=
  process_reading st frame (frame_reading trillion_map hundred_million_map frame).

(** Lines 228-364: [while current_frame_to_process <= max_frame_num]. *)
Fixpoint frame_loop (fuel : nat) (trillion_map hundred_million_map : gmap Z N)
    (frame_interval max_frame_num : Z) (frame : Z) (st : state)
  : outcome (list row_data * state) :=
  if frame <=? max_frame_num then
    match fuel with
    | O => OutOfFuel
    | S fuel' =>
        '(st', row) ← loop_body trillion_map hundred_million_map st frame;
        '(rows, st'') ←
          frame_loop fuel' trillion_map hundred_million_map
            frame_interval max_frame_num (frame + frame_interval) st';
        Done (row :: rows, st'')
    end
  else Done ([], st).

(** Line 179: the frame numbers that have an image of either unit. *)
Definition all_frame_numbers (trillion_map hundred_million_map : gmap Z N) : list Z :=
  merge_sort Z.le (elements (dom trillion_map ∪ dom hundred_million_map)).

(** Python's [max] of a non-empty list. *)
Definition list_max (l : list Z) : option Z :=
  match l with
  | [] => None
  | x :: l' => Some (fold_left Z.max l' x)
  end.

(** The body of [process_ocr] from the validation of line 162 on, with the
    fuel of the loop left open. *)
Definition process_ocr_fuel (fuel : nat) (trillion_map hundred_million_map : gmap Z N)
    (start_frame frame_interval : Z) (fps : float) : outcome (list row_data * state) :=
  if (start_frame <? 0) || (frame_interval <=? 0) || (fps <=? 0)%float then InputError
  else
    match list_max (all_frame_numbers trillion_map hundred_million_map) with
    | None => NoImages
    | Some max_frame_num =>
        frame_loop fuel trillion_map hundred_million_map
          frame_interval max_frame_num start_frame initial_state
    end.

(** The loop runs at most once per frame number from [start_frame] to
    [max_frame_num]. *)
Definition enough_fuel (trillion_map hundred_million_map : gmap Z N)
    (start_frame : Z) : nat :=
  match list_max (all_frame_numbers trillion_map hundred_million_map) with
  | None => O
  | Some max_frame_num => Z.to_nat (max_frame_num - start_frame + 1)
  end.

Definition process_ocr (trillion_map hundred_million_map : gmap Z N)
    (start_frame frame_interval : Z) (fps : float) : outcome (list row_data) :=
  '(rows, _) ←
    process_ocr_fuel (enough_fuel trillion_map hundred_million_map start_frame)
      trillion_map hundred_million_map start_frame frame_interval fps;
  Done rows.

(** ** The reducer over an explicit sequence of frames

    What the [while] does once the frames it visits are listed
    ([frame_loop_run_readings] below relates the two). *)
Fixpoint run_readings (st : state) (l : list (Z * reading))
  : outcome (list row_data * state) :=
  match l with
  | [] => Done ([], st)
  | (frame, rd) :: l' =>
      '(st', row) ← process_reading st frame rd;
      '(rows, st'') ← run_readings st' l';
      Done (row :: rows, st'')
  end.

(** The frames the [while] visits. *)
Fixpoint loop_frames (fuel : nat) (frame_interval max_frame_num frame : Z) : list Z :=
  if frame <=? max_frame_num then
    match fuel with
    | O => []
    | S fuel' =>
        frame :: loop_frames fuel' frame_interval max_frame_num (frame + frame_interval)
    end
  else [].

(** [start_frame], [start_frame + frame_interval], ... : the first [n]
    sampled frame numbers, as the specification lists them. *)
Definition sampled_frames (start_frame frame_interval : Z) (n : nat) : list Z :=
  map (fun k => start_frame + Z.of_nat k * frame_interval) (seq 0 n).

(** The states a run goes through, at the top of the loop. *)
Inductive reachable : state -> Prop :=
| reachable_initial : reachable initial_state
| reachable_step st frame rd st' row :
    reachable st ->
    process_reading st frame rd = Done (st', row) ->
    reachable st'.

(** ** Notions on floats *)

(** [0 <= x]: neither NaN nor negative. *)
Definition nonneg (x : float) : Prop := (0 <=? x)%float = true.

Definition sf_nonneg (x : spec_float) : bool := SFleb (S754_zero false) x.

(** The value [binary_round_aux] ends with, for the mantissa [m] and the
    exponent [e] that its two shifts leave. *)
Definition rounded (s : bool) (m e : Z) : spec_float :=
  match m with
  | Z0 => S754_zero s
  | Zpos p => if e <=? emax - prec then S754_finite s p e else S754_infinity s
  | Zneg _ => S754_nan
  end.

Definition sf_signed (s : bool) (r : spec_float) : Prop :=
  match r with
  | S754_zero s' | S754_infinity s' | S754_finite s' _ _ => s' = s
  | S754_nan => False
  end.

(** What holds of the state at the top of every iteration. *)
Definition state_ok (st : state) : Prop :=
  nonneg (overall_accumulated_damage st)
  /\ nonneg (reset_offset st)
  /\ nonneg (last_successful_ocr_value_in_current_phase st)
  /\ (reset_offset st <=? overall_accumulated_damage st)%float = true
  /\ previous_total_damage_for_diff st = overall_accumulated_damage st.

(** Two rows in the order of their totals. *)
Definition total_le (r1 r2 : row_data) : Prop :=
  (current_total_damage_to_log r1 <=? current_total_damage_to_log r2)%float = true.

(** ** The scenarios of the specification *)

Definition frames_of (l : list (Z * N)) : gmap Z N := list_to_map l.

(** Readings (0,0), (1,2000), (2,1500), (0,5), (3,1000) at frames 0, 24,
    48, 72, 96. *)
Definition scenario_trillion : gmap Z N :=
  frames_of [(0, 0%N); (24, 1%N); (48, 2%N); (72, 0%N); (96, 3%N)].
Definition scenario_hundred_million : gmap Z N :=
  frames_of [(0, 0%N); (24, 2000%N); (48, 1500%N); (72, 5%N); (96, 1000%N)].

(** The rows and the final state of that scenario. *)
Definition scenario_rows : list row_data :=
  [ mk_row 0 0 0 0 0;
    mk_row 24 1 2000 1.2 1.2;
    mk_row 48 2 1500 2.15 0.95;
    mk_row 72 2 1500 2.15 0;
    mk_row 96 3 1000 3.1 (3.1 - 2.15) ]%float.

Definition scenario_final_state : state :=
  mk_state 3.1 3.1 0 3 1000 3.1.

(** The state before the frame that reads (0,5). *)
Definition scenario_state_at_48 : state :=
  mk_state 2.15 2.15 0 2 1500 2.15.

(** Raw values 5.0, 5.2, 0.0001, 0.3: readings (5,0), (5,2000), (0,1),
    (0,3000), here at frames 0, 24, 48, 72. *)
Definition synthetic_trillion : gmap Z N :=
  frames_of [(0, 5%N); (24, 5%N); (48, 0%N); (72, 0%N)].
Definition synthetic_hundred_million : gmap Z N :=
  frames_of [(0, 0%N); (24, 2000%N); (48, 1%N); (72, 3000%N)].

(** The same with the third raw value 0 in place of 0.0001. *)
Definition synthetic_zero_hundred_million : gmap Z N :=
  frames_of [(0, 0%N); (24, 2000%N); (48, 0%N); (72, 3000%N)].

(** The state after the frame that reads raw = 5.2. *)
Definition state_at_5_2 : state :=
  mk_state 5.2 5.2 0 5 2000 5.2.



(** Every number read from the images of a map is below [2 ^ 1023]. *)
Definition readings_bounded (m : gmap Z N) : Prop :=
  forall frame v, m !! frame = Some v -> (v < 2 ^ 1023)%N.

(** The carried total is the raw value of the digits logged last plus the
    current offset. *)
Definition state_logged (st : state) : Prop :=
  exists raw,
    raw_current_damage_from_ocr (last_valid_jo st) (last_valid_uk st) = Done raw
    /\ overall_accumulated_damage st = (raw + reset_offset st)%float.

(** A float that is positive and at least [2 ^ (k - 1)]: infinite, or
    finite with a mantissa of [d] binary digits and an exponent [e] such
    that [k <= d + e]. *)
Definition sf_above (k : Z) (s : spec_float) : Prop :=
  match s with
  | S754_finite false m e => k <= Zdigits2 (Zpos m) + e
  | S754_infinity false => True
  | _ => False
  end.

(** The phase value is 0 or at least [2 ^ -14]. *)
Definition phase_value_ok (st : state) : Prop :=
  last_successful_ocr_value_in_current_phase st = 0%float
  \/ sf_above (-13) (Prim2SF (last_successful_ocr_value_in_current_phase st)).

(** ** File names and OCR text

    A text is a string of ASCII characters here ([ascii_text]): the OCR
    engines are restricted to the digits [0123456789], and the file names
    are the ones [process_video] writes.  On other texts Python's [\d],
    [int] and [str.lower] also know the digits and the letters of other
    scripts, which the functions below do not; what is stated of a text or
    of a file name that is not given by the program itself is stated of
    ASCII texts. *)
Definition is_ascii (c : ascii) : bool := (N_of_ascii c <? 128)%N.

Fixpoint ascii_text (s : string) : bool :=
  match s with
  | EmptyString => true
  | String c s' => is_ascii c && ascii_text s'
  end.

(** A file name in ASCII of at most 255 characters, the longest name of
    the usual file systems. *)
Definition plain_name (f : string) : bool :=
  ascii_text f && (String.length f <=? 255)%nat.

(** A character that [\d] matches. *)
Definition is_digit (c : ascii) : bool :=
  match uint_of_char c (Some Decimal.Nil) with
  | Some _ => true
  | None => false
  end.

(** The longest run of digits a text starts with, and what follows it. *)
Fixpoint digits_prefix (s : string) : string * string :=
  match s with
  | EmptyString => (EmptyString, EmptyString)
  | String c s' =>
      if is_digit c then
        let '(d, rest) := digits_prefix s' in (String c d, rest)
      else (EmptyString, s)
  end.

(** What may follow a run of digits: nothing, or a character that is no
    digit. *)
Definition no_digit_ahead (rest : string) : Prop :=
  match rest with
  | EmptyString => True
  | String c _ => is_digit c = false
  end.

(** Whether some character of a text is a digit. *)
Fixpoint has_digit (s : string) : bool :=
  match s with
  | EmptyString => false
  | String c s' => is_digit c || has_digit s'
  end.

(** [re.findall(r'\d+', text)], with [run] the digits of the run being
    read. *)
Fixpoint findall_digits (run : string) (text : string) : list string :=
  match text with
  | EmptyString => match run with EmptyString => [] | _ => [run] end
  | String c text' =>
      if is_digit c then findall_digits (run ++ String c EmptyString) text'
      else
        match run with
        | EmptyString => findall_digits EmptyString text'
        | _ => run :: findall_digits EmptyString text'
        end
  end.

(** The number a string of digits writes. *)
Definition digits_value (d : string) : N :=
  match NilEmpty.uint_of_string d with
  | Some u => N.of_uint u
  | None => 0%N
  end.

(** CPython's default limit on the digits of a string given to [int]
    ([sys.get_int_max_str_digits()]). *)
Definition int_max_str_digits : nat := 4300.

(** [int] of a string of digits; [None] is the [ValueError] raised on more
    digits than the limit, leading zeros included. *)
Definition int_of_digits (d : string) : option N :=
  if (String.length d <=? int_max_str_digits)%nat then Some (digits_value d) else None.

(** Lines 86-95; [None] is the [ValueError] of [int] at line 94, which
    the function does not catch. *)
Definition get_number_from_ocr_text (text : string) : option N :=
  match findall_digits EmptyString text with
  | d :: _ => int_of_digits d
  | [] => Some 0%N
  end.

(** [re.search(r'frame_(\d+)', x)]: the group of the leftmost match. *)
Fixpoint search_frame (x : string) : option string :=
  match x with
  | EmptyString => None
  | String _ x' =>
      if String.prefix "frame_" x then
        match digits_prefix (substring 6 (String.length x - 6) x) with
        | (String c d, _) => Some (String c d)
        | (EmptyString, _) => search_frame x'
        end
      else search_frame x'
  end.

(** [int(re.search(r'frame_(\d+)', f).group(1))], when there is a match.
    The name of a file has fewer digits than [int_max_str_digits], so that
    [int] does not raise here. *)
Definition frame_number (f : string) : option Z :=
  match search_frame f with
  | Some d => Some (Z.of_N (digits_value d))
  | None => None
  end.

(** [str.lower] on ASCII. *)
Definition lower_char (c : ascii) : ascii :=
  let n := N_of_ascii c in
  if ((65 <=? n) && (n <=? 90))%N then ascii_of_N (n + 32) else c.

Fixpoint lower (s : string) : string :=
  match s with
  | EmptyString => EmptyString
  | String c s' => String (lower_char c) (lower s')
  end.

(** [s.endswith(suffix)]. *)
Fixpoint endswith (suffix s : string) : bool :=
  if String.eqb s suffix then true
  else match s with
       | EmptyString => false
       | String _ s' => endswith suffix s'
       end.

(** Lines 170 and 172: the filter of the listing. *)
Definition is_image_file (f : string) : bool :=
  endswith ".png" (lower f) || endswith ".jpg" (lower f) || endswith ".jpeg" (lower f).

(** Whether the name of a file carries the frame number [k]. *)
Definition has_frame_number (k : Z) (f : string) : bool :=
  bool_decide (frame_number f = Some k).

(** The key the listing is sorted by: the frame number, or 0. *)
Definition sort_key (f : string) : Z :=
  match frame_number f with
  | Some k => k
  | None => 0
  end.

(** [sorted(..., key=...)]: the sort is stable, and a stable sort has one
    result; it is computed here by insertion. *)
Fixpoint insert_by_key (f : string) (l : list string) : list string :=
  match l with
  | [] => [f]
  | g :: l' =>
      if sort_key f <=? sort_key g then f :: g :: l' else g :: insert_by_key f l'
  end.

Fixpoint sorted_by_key (l : list string) : list string :=
  match l with
  | [] => []
  | f :: l' => insert_by_key f (sorted_by_key l')
  end.

(** Lines 170-173. *)
Definition image_files (listing : list string) : list string :=
  sorted_by_key (List.filter is_image_file listing).

(** Lines 176-177: the dictionary from frame numbers to files.  The value
    kept for a file is its name; the path is [os.path.join] of the folder
    and the name. *)
Definition frame_map (files : list string) : gmap Z string :=
  fold_left
    (fun m f =>
       match frame_number f with
       | Some k => <[k := f]> m
       | None => m
       end)
    files ∅.

(** [str] of a natural number. *)
Definition str (n : N) : string := NilZero.string_of_uint (N.to_uint n).

Fixpoint zeros (n : nat) : string :=
  match n with
  | O => EmptyString
  | S n' => String "0" (zeros n')
  end.

(** Lines 656 and 661 of [process_video]: [f"frame_{frame_idx:05d}.png"]. *)
Definition frame_file_name (frame_idx : N) : string :=
  ("frame_" ++ zeros (5 - String.length (str frame_idx)) ++ str frame_idx ++ ".png")%string.


(** What [process_ocr] comes to from the two folders: what the loop comes
    to, or the [ValueError] of [get_number_from_ocr_text], which nothing
    catches. *)
Inductive folders_outcome (A : Type) : Type :=
| Outcome (o : outcome A)
| ValueError.
Arguments Outcome {A} o.
Arguments ValueError {A}.

#[global] Instance folders_outcome_bind : MBind folders_outcome := fun A B k c =>
  match c with
  | Outcome (Done a) => k a
  | Outcome InputError => Outcome InputError
  | Outcome NoImages => Outcome NoImages
  | Outcome OverflowError => Outcome OverflowError
  | Outcome OutOfFuel => Outcome OutOfFuel
  | ValueError => ValueError
  end.

(** The value of a call of [get_number_from_ocr_text]. *)
Definition number_read (n : option N) : folders_outcome N :=
  match n with
  | Some n => Outcome (Done n)
  | None => ValueError
  end.

Section Folders.
(** The text [ocr_image] reads from the image of a file of each folder. *)
Variables ocr_trillion ocr_hundred_million : string -> string.

(** Lines 241-254: the two paths of a frame and, when both exist, the two
    numbers read from their images. *)
Definition frame_reading_files (trillion_map hundred_million_map : gmap Z string)
    (frame : Z) : folders_outcome reading :=
  match trillion_map !! frame, hundred_million_map !! frame with
  | Some trillion_img_path, Some hundred_million_img_path =>
      trillion_val ←
        number_read (get_number_from_ocr_text (ocr_trillion trillion_img_path));
      hundred_million_val ←
        number_read
          (get_number_from_ocr_text (ocr_hundred_million hundred_million_img_path));
      Outcome (Done (Some (trillion_val, hundred_million_val)))
  | _, _ => Outcome (Done None)
  end.

(** Lines 228-364, from the dictionaries of the files. *)
Fixpoint frame_loop_files (fuel : nat) (trillion_map hundred_million_map : gmap Z string)
    (frame_interval max_frame_num : Z) (frame : Z) (st : state)
  : folders_outcome (list row_data * state) :=
  if frame <=? max_frame_num then
    match fuel with
    | O => Outcome OutOfFuel
    | S fuel' =>
        rd ← frame_reading_files trillion_map hundred_million_map frame;
        '(st', row) ← Outcome (process_reading st frame rd);
        '(rows, st'') ←
          frame_loop_files fuel' trillion_map hundred_million_map
            frame_interval max_frame_num (frame + frame_interval) st';
        Outcome (Done (row :: rows, st''))
    end
  else Outcome (Done ([], st)).

(** [process_ocr] from the listings of the two folders (lines 162-364). *)
Definition process_ocr_folders (trillion_listing hundred_million_listing : list string)
    (start_frame frame_interval : Z) (fps : float) : folders_outcome (list row_data) :=
  if (start_frame <? 0) || (frame_interval <=? 0) || (fps <=? 0)%float
  then Outcome InputError
  else
    let trillion_map := frame_map (image_files trillion_listing) in
    let hundred_million_map := frame_map (image_files hundred_million_listing) in
    match list_max (merge_sort Z.le
                      (elements (dom trillion_map ∪ dom hundred_million_map))) with
    | None => Outcome NoImages
    | Some max_frame_num =>
        '(rows, _) ←
          frame_loop_files (Z.to_nat (max_frame_num - start_frame + 1))
            trillion_map hundred_million_map
            frame_interval max_frame_num start_frame initial_state;
        Outcome (Done rows)
    end.
End Folders.

(** The numbers read from the images of a dictionary of files, with 0
    where [int] raises: what [process_ocr] works on when no [ValueError]
    is raised. *)
Definition numbers_read (ocr : string -> string) (m : gmap Z string) : gmap Z N :=
  (fun f => default 0%N (get_number_from_ocr_text (ocr f))) <$> m.

Definition readings_map (ocr : string -> string) (listing : list string) : gmap Z N :=
  numbers_read ocr (frame_map (image_files listing)).

(** ** The selection of the two regions ([VideoROISelector])

    The fields of the object that the handlers read and write, and the
    states of the three buttons that [update_ui_state] sets; what the
    handlers draw on the canvas is left out. *)
Definition rectangle : Type := Z * Z * Z * Z.

Record selector : Type := mk_selector {
  video_path : option string;
  roi1 : option rectangle;
  roi2 : option rectangle;
  current_roi_drawing : option rectangle;
  current_roi_step : Z;
  drawing : bool;
  ix : Z;
  iy : Z;
  canvas_bound : bool;
  label_status : string;
  btn_confirm_roi : bool;
  btn_redraw_roi : bool;
  btn_process : bool
}.

(** Lines 432-469: the object as [__init__] leaves it; a button is [true]
    when its state is ['normal']. *)
Definition new_selector : selector :=
  {| video_path := None; roi1 := None; roi2 := None;
     current_roi_drawing := None; current_roi_step := 0;
     drawing := false; ix := -1; iy := -1; canvas_bound := false;
     label_status := "Please select a video file.";
     btn_confirm_roi := false; btn_redraw_roi := false; btn_process := false |}.

(** Lines 593-619. *)
Definition update_ui_state (s : selector) : selector :=
  let drawn := match current_roi_drawing s with Some _ => true | None => false end in
  let step := current_roi_step s in
  {| video_path := video_path s; roi1 := roi1 s; roi2 := roi2 s;
     current_roi_drawing := current_roi_drawing s; current_roi_step := step;
     drawing := drawing s; ix := ix s; iy := iy s; canvas_bound := canvas_bound s;
     label_status :=
       if step =? 0 then "Please select a video file."
       else if step =? 1 then "Please draw the ROI for Trillion units (blue rectangle)."
       else if step =? 2
         then "Please draw the ROI for Hundred Million units (green rectangle)."
       else if step =? 3
         then "Both ROIs are set. Click 'Start Processing' to extract images."
       else label_status s;
     btn_confirm_roi := ((step =? 1) || (step =? 2)) && drawn;
     btn_redraw_roi := (step =? 1) || (step =? 2) || (step =? 3);
     btn_process := step =? 3 |}.

(** What [show_frame_for_roi] comes to, which is decided outside: a frame
    is shown and the mouse is bound to the canvas; or an error box is
    shown and the method returns; or an exception leaves it, as the
    division by a frame rate of 0 does. *)
Inductive frame_outcome : Type := FrameShown | NoFrame | Raised.

(** Lines 471-480; [path] is what the dialog returns, empty when it is
    cancelled. *)
Definition select_video (path : string) (shown : frame_outcome) (s : selector)
  : selector :=
  match path with
  | EmptyString => s
  | _ =>
      let s1 :=
        {| video_path := Some path; roi1 := roi1 s; roi2 := roi2 s;
           current_roi_drawing := current_roi_drawing s;
           current_roi_step := current_roi_step s;
           drawing := drawing s; ix := ix s; iy := iy s;
           canvas_bound :=
             match shown with FrameShown => true | _ => canvas_bound s end;
           label_status := label_status s;
           btn_confirm_roi := btn_confirm_roi s;
           btn_redraw_roi := btn_redraw_roi s; btn_process := btn_process s |} in
      match shown with
      | Raised => s1
      | _ =>
          update_ui_state
            {| video_path := video_path s1; roi1 := roi1 s1; roi2 := roi2 s1;
               current_roi_drawing := current_roi_drawing s1;
               current_roi_step := 1;
               drawing := drawing s1; ix := ix s1; iy := iy s1;
               canvas_bound := canvas_bound s1;
               label_status := label_status s1;
               btn_confirm_roi := btn_confirm_roi s1;
               btn_redraw_roi := btn_redraw_roi s1; btn_process := btn_process s1 |}
      end
  end.

(** Lines 530-536. *)
Definition on_mouse_down (x y : Z) (s : selector) : selector :=
  if (current_roi_step s =? 1) || (current_roi_step s =? 2) then
    {| video_path := video_path s; roi1 := roi1 s; roi2 := roi2 s;
       current_roi_drawing := current_roi_drawing s;
       current_roi_step := current_roi_step s;
       drawing := true; ix := x; iy := y; canvas_bound := canvas_bound s;
       label_status := label_status s;
       btn_confirm_roi := btn_confirm_roi s;
       btn_redraw_roi := btn_redraw_roi s; btn_process := btn_process s |}
  else s.

(** Lines 550-554: the rectangle of a drag from [(ix, iy)] to [(x, y)]. *)
Definition drawn_rectangle (ix iy x y : Z) : rectangle :=
  (Z.min ix x, Z.min iy y, Z.max ix x - Z.min ix x, Z.max iy y - Z.min iy y).

(** Lines 545-555. *)
Definition on_mouse_up (x y : Z) (s : selector) : selector :=
  if drawing s then
    update_ui_state
      {| video_path := video_path s; roi1 := roi1 s; roi2 := roi2 s;
         current_roi_drawing := Some (drawn_rectangle (ix s) (iy s) x y);
         current_roi_step := current_roi_step s;
         drawing := false; ix := ix s; iy := iy s; canvas_bound := canvas_bound s;
         label_status := label_status s;
         btn_confirm_roi := btn_confirm_roi s;
         btn_redraw_roi := btn_redraw_roi s; btn_process := btn_process s |}
  else s.

(** Lines 557-578. *)
Definition confirm_current_roi (s : selector) : selector :=
  match current_roi_drawing s with
  | None => s
  | Some r =>
      if current_roi_step s =? 1 then
        update_ui_state
          {| video_path := video_path s; roi1 := Some r; roi2 := roi2 s;
             current_roi_drawing := None; current_roi_step := 2;
             drawing := drawing s; ix := ix s; iy := iy s;
             canvas_bound := canvas_bound s; label_status := label_status s;
             btn_confirm_roi := btn_confirm_roi s;
             btn_redraw_roi := btn_redraw_roi s; btn_process := btn_process s |}
      else if current_roi_step s =? 2 then
        update_ui_state
          {| video_path := video_path s; roi1 := roi1 s; roi2 := Some r;
             current_roi_drawing := None; current_roi_step := 3;
             drawing := drawing s; ix := ix s; iy := iy s;
             canvas_bound := canvas_bound s; label_status := label_status s;
             btn_confirm_roi := btn_confirm_roi s;
             btn_redraw_roi := btn_redraw_roi s; btn_process := btn_process s |}
      else update_ui_state s
  end.

(** Lines 580-590. *)
Definition redraw_current_roi (s : selector) : selector :=
  update_ui_state
    {| video_path := video_path s;
       roi1 := if current_roi_step s =? 1 then None else roi1 s;
       roi2 := if current_roi_step s =? 1 then roi2 s
               else if current_roi_step s =? 2 then None else roi2 s;
       current_roi_drawing := None; current_roi_step := current_roi_step s;
       drawing := drawing s; ix := ix s; iy := iy s;
       canvas_bound := canvas_bound s; label_status := label_status s;
       btn_confirm_roi := btn_confirm_roi s;
       btn_redraw_roi := btn_redraw_roi s; btn_process := btn_process s |}.

(** What the user does.  A button that is disabled does not call its
    command, and the mouse reaches the handlers once
    [display_frame_for_roi] has bound them. *)
Inductive event : Type :=
| SelectVideo (path : string) (shown : frame_outcome)
| MouseDown (x y : Z)
| MouseMove (x y : Z)
| MouseUp (x y : Z)
| ClickConfirm
| ClickRedraw.

Definition handle (s : selector) (e : event) : selector :=
  match e with
  | SelectVideo path shown => select_video path shown s
  | MouseDown x y => if canvas_bound s then on_mouse_down x y s else s
  | MouseMove _ _ => s
  | MouseUp x y => if canvas_bound s then on_mouse_up x y s else s
  | ClickConfirm => if btn_confirm_roi s then confirm_current_roi s else s
  | ClickRedraw => if btn_redraw_roi s then redraw_current_roi s else s
  end.

Definition handle_all (s : selector) (events : list event) : selector :=
  fold_left handle events s.

(** Lines 621-636 of [process_video]: the message it stops with, or the two
    regions it goes on with. *)
Inductive process_start : Type :=
| SelectVideoFirst
| SpecifyBothROI
| CouldNotOpen
| Cropping (r1 r2 : rectangle).

Definition process_video_start (opened : bool) (s : selector) : process_start :=
  match video_path s with
  | None => SelectVideoFirst
  | Some _ =>
      match roi1 s, roi2 s with
      | Some r1, Some r2 => if opened then Cropping r1 r2 else CouldNotOpen
      | _, _ => SpecifyBothROI
      end
  end.

Definition rectangle_ok (r : option rectangle) : Prop :=
  match r with
  | Some (_, _, w, h) => 0 <= w /\ 0 <= h
  | None => True
  end.

(** What holds of the selector whatever the user does: of the step and
    the regions, and of the buttons. *)
Definition regions_ok (s : selector) : Prop :=
  0 <= current_roi_step s <= 3
  /\ (1 <= current_roi_step s -> video_path s <> None)
  /\ (2 <= current_roi_step s -> roi1 s <> None)
  /\ (current_roi_step s = 3 -> roi2 s <> None)
  /\ rectangle_ok (roi1 s) /\ rectangle_ok (roi2 s)
  /\ rectangle_ok (current_roi_drawing s).

Definition buttons_ok (s : selector) : Prop :=
  btn_process s = (current_roi_step s =? 3)
  /\ btn_redraw_roi s = (1 <=? current_roi_step s)
  /\ btn_confirm_roi s
     = (((current_roi_step s =? 1) || (current_roi_step s =? 2))
        && match current_roi_drawing s with Some _ => true | None => false end).

Definition selector_ok (s : selector) : Prop := regions_ok s /\ buttons_ok s.

Definition is_select_video (e : event) : bool :=
  match e with SelectVideo _ _ => true | _ => false end.

Definition is_mouse_move (e : event) : bool :=
  match e with MouseMove _ _ => true | _ => false end.

(** * Binary64 arithmetic

    Facts about the operations of [SpecFloat] at [prec = 53] and
    [emax = 1024], which specify the primitive ones. *)

Module SF.

Lemma digits2_pos_size p : digits2_pos p = Pos.size p.
Proof. induction p; simpl; congruence. Qed.

Lemma Zdigits2_log2 m : 0 < m -> Zdigits2 m = Z.log2 m + 1.
Proof.
  destruct m as [|p|p]; try lia. intros _. simpl.
  rewrite digits2_pos_size. destruct p; simpl; rewrite ?Pos2Z.inj_succ; lia.
Qed.

Lemma shr_1_m r : 0 <= shr_m r -> shr_m (shr_1 r) = shr_m r / 2.
Proof.
  destruct r as [m r s]; simpl. rewrite <- Z.div2_div.
  destruct m as [|[p|p|]|p]; simpl; intros; try reflexivity; lia.
Qed.

Lemma iter_pos_shr_m p : forall r, 0 <= shr_m r ->
  shr_m (SpecFloat.iter_pos shr_1 p r) = shr_m r / 2 ^ Zpos p.
Proof.
  induction p as [p IH|p IH|]; intros r Hr; simpl SpecFloat.iter_pos.
  - assert (H1 : 0 <= shr_m (shr_1 r)) by (rewrite shr_1_m by lia; apply Z.div_pos; lia).
    assert (H2 : 0 <= shr_m (SpecFloat.iter_pos shr_1 p (shr_1 r)))
      by (rewrite IH by lia; apply Z.div_pos; [lia|apply Z.pow_pos_nonneg; lia]).
    rewrite IH, IH, shr_1_m by lia.
    rewrite !Z.div_div by (try apply Z.pow_pos_nonneg; lia).
    f_equal.
    assert (Hp : 2 ^ Z.pos p~1 = 2 * 2 ^ Z.pos p * 2 ^ Z.pos p).
    { rewrite <- Z.mul_assoc, <- Z.pow_add_r, <- Z.pow_succ_r by lia. f_equal. lia. }
    lia.
  - assert (H2 : 0 <= shr_m (SpecFloat.iter_pos shr_1 p r))
      by (rewrite IH by lia; apply Z.div_pos; [lia|apply Z.pow_pos_nonneg; lia]).
    rewrite IH, IH by lia.
    rewrite !Z.div_div by (try apply Z.pow_pos_nonneg; lia).
    f_equal.
    assert (Hp : 2 ^ Z.pos p~0 = 2 ^ Z.pos p * 2 ^ Z.pos p).
    { rewrite <- Z.pow_add_r by lia. f_equal. lia. }
    lia.
  - rewrite shr_1_m by lia. reflexivity.
Qed.

Lemma shr_spec r e n : 0 <= shr_m r ->
  shr_m (fst (shr r e n)) = shr_m r / 2 ^ Z.max 0 n /\ snd (shr r e n) = e + Z.max 0 n.
Proof.
  intros Hr. destruct n as [|p|p]; simpl.
  - rewrite Z.div_1_r. lia.
  - rewrite iter_pos_shr_m by lia. split; reflexivity.
  - rewrite Z.div_1_r. lia.
Qed.

Lemma shr_m_of_loc m l : shr_m (shr_record_of_loc m l) = m.
Proof. destruct l as [|[]]; reflexivity. Qed.

Lemma round_nearest_even_bounds m l :
  m <= round_nearest_even m l <= m + 1.
Proof. destruct l as [|[]]; simpl; try destruct (Z.even m); lia. Qed.

Lemma binary_round_aux_spec s m e l : 0 <= m ->
  let n1 := Z.max 0 (fexp prec emax (Zdigits2 m + e) - e) in
  exists m', m / 2 ^ n1 <= m' <= m / 2 ^ n1 + 1 /\
    let n2 := Z.max 0 (fexp prec emax (Zdigits2 m' + (e + n1)) - (e + n1)) in
    binary_round_aux prec emax s m e l = rounded s (m' / 2 ^ n2) (e + n1 + n2).
Proof.
  intros Hm n1. unfold binary_round_aux, shr_fexp.
  pose proof (shr_spec (shr_record_of_loc m l) e (fexp prec emax (Zdigits2 m + e) - e)) as H1.
  rewrite shr_m_of_loc in H1. specialize (H1 Hm).
  destruct (shr (shr_record_of_loc m l) e (fexp prec emax (Zdigits2 m + e) - e)) as [mrs' e'].
  simpl in H1. destruct H1 as [H1 H1e]. fold n1 in H1, H1e.
  set (m' := round_nearest_even (shr_m mrs') (loc_of_shr_record mrs')).
  exists m'. split.
  - rewrite <- H1. apply round_nearest_even_bounds.
  - cbv zeta.
    assert (Hm' : 0 <= m').
    { pose proof (round_nearest_even_bounds (shr_m mrs') (loc_of_shr_record mrs')).
      assert (0 <= m / 2 ^ n1) by (apply Z.div_pos; [lia|apply Z.pow_pos_nonneg; lia]).
      fold m' in H. lia. }
    pose proof (shr_spec (shr_record_of_loc m' loc_Exact) e' (fexp prec emax (Zdigits2 m' + e') - e')) as H2.
    rewrite shr_m_of_loc in H2. specialize (H2 Hm').
    destruct (shr (shr_record_of_loc m' loc_Exact) e' (fexp prec emax (Zdigits2 m' + e') - e')) as [mrs'' e''].
    simpl in H2. destruct H2 as [H2 H2e]. subst e'.
    rewrite H2, H2e. reflexivity.
Qed.

Lemma fexp_eq x : fexp prec emax x = Z.max (x - 53) (-1074).
Proof. reflexivity. Qed.

Lemma pos_iter_xO m d : Zpos (Pos.iter xO m d) = Zpos m * 2 ^ Zpos d.
Proof.
  induction d as [|d IH] using Pos.peano_ind.
  - simpl. lia.
  - rewrite Pos.iter_succ, Pos2Z.inj_xO, IH, Pos2Z.inj_succ, Z.pow_succ_r by lia. lia.
Qed.

Lemma shl_align_fst mx ex ez : ez <= ex ->
  Zpos (fst (shl_align mx ex ez)) = Zpos mx * 2 ^ (ex - ez).
Proof.
  intros H. unfold shl_align. destruct (ez - ex) as [|d|d] eqn:Hd; try lia; cbn [fst].
  - replace (ex - ez) with 0 by lia. rewrite Z.pow_0_r. lia.
  - rewrite pos_iter_xO. replace (ex - ez) with (Zpos d) by lia. reflexivity.
Qed.

Lemma pow2_le_log2 n m : 0 < m -> 0 <= n <= Z.log2 m -> 2 ^ n <= m.
Proof.
  intros Hm Hn. destruct (Z.log2_spec m Hm) as [H _].
  etransitivity; [|exact H]. apply Z.pow_le_mono_r; lia.
Qed.

Lemma div_pow2_pos n m : 0 < m -> 0 <= n <= Z.log2 m -> 1 <= m / 2 ^ n.
Proof.
  intros Hm Hn. apply Z.div_le_lower_bound; [apply Z.pow_pos_nonneg; lia|].
  rewrite Z.mul_1_r. apply pow2_le_log2; assumption.
Qed.

(** Rounding a positive mantissa that is worth at least a canonical float
    gives at least that float. *)
Lemma binary_round_lower my ey M ez :
  bounded prec emax my ey = true -> ez <= ey ->
  Zpos my * 2 ^ (ey - ez) <= Zpos M ->
  SFleb (S754_finite false my ey) (binary_round prec emax false M ez) = true.
Proof.
  intros Hb Hez HM.
  apply andb_prop in Hb. destruct Hb as [Hc Hmax].
  apply Z.eqb_eq in Hc. apply Z.leb_le in Hmax.
  rewrite digits2_pos_size in Hc.
  assert (Hdy := Zdigits2_log2 (Zpos my) eq_refl). simpl Zdigits2 in Hdy.
  rewrite digits2_pos_size in Hdy.
  assert (HdM := Zdigits2_log2 (Zpos M) eq_refl).
  assert (Hlog : Z.log2 (Zpos my) + (ey - ez) <= Z.log2 (Zpos M)).
  { pose proof (Z.log2_le_mono _ _ HM) as H2.
    rewrite Z.log2_mul_pow2 in H2 by lia. lia. }
  assert (Hly := Z.log2_nonneg (Zpos my)).
  unfold binary_round.
  change (Zpos (digits2_pos M)) with (Zdigits2 (Zpos M)).
  rewrite fexp_eq in *.
  assert (HE : ey <= Z.max (Zdigits2 (Zpos M) + ez - 53) (-1074)) by lia.
  unfold shl_align.
  destruct (Z.max (Zdigits2 (Zpos M) + ez - 53) (-1074) - ez) as [|d|d] eqn:Hd; try lia.
  - (* no shift at all *)
    destruct (binary_round_aux_spec false (Zpos M) ez loc_Exact) as (m' & Hm' & Heq); [lia|].
    cbv zeta in Heq. rewrite !fexp_eq in *. rewrite Hd in *. simpl Z.max in Hm', Heq.
    rewrite Z.div_1_r in Hm'. rewrite Z.add_0_r in Heq.
    assert (Hm'pos : 0 < m') by lia.
    assert (Hdm' := Zdigits2_log2 m' Hm'pos).
    assert (Hlm' := Z.log2_nonneg m').
    set (n2 := Z.max 0 (Z.max (Zdigits2 m' + ez - 53) (-1074) - ez)) in *.
    assert (Hq : 1 <= m' / 2 ^ n2) by (apply div_pow2_pos; lia).
    rewrite Heq. unfold rounded.
    destruct (m' / 2 ^ n2) as [|q|q] eqn:Hqe; try lia.
    destruct (ez + n2 <=? emax - prec); [|reflexivity].
    unfold SFleb, SFcompare.
    destruct (Z.compare_spec ey (ez + n2)) as [He|He|He]; try reflexivity; try lia.
    assert (n2 = 0) by lia.
    rewrite H, Z.div_1_r in Hqe.
    replace (ey - ez) with 0 in HM by lia. rewrite Z.pow_0_r, Z.mul_1_r in HM.
    rewrite Pos.compare_cont_spec. simpl.
    destruct (Pos.compare_spec my q); try reflexivity; lia.
  - (* a shift by [d] *)
    destruct (binary_round_aux_spec false (Zpos M) ez loc_Exact) as (m' & Hm' & Heq); [lia|].
    cbv zeta in Heq. rewrite !fexp_eq in *. rewrite Hd in *.
    change (Z.max 0 (Z.pos d)) with (Z.pos d) in *.
    assert (Hm1 : 1 <= Zpos M / 2 ^ Zpos d /\ (ey = ez + Zpos d -> Zpos my <= Zpos M / 2 ^ Zpos d)).
    { split.
      - destruct (Z.eq_dec ey (ez + Zpos d)) as [He|He].
        + apply Z.div_le_lower_bound; [apply Z.pow_pos_nonneg; lia|].
          replace (ey - ez) with (Zpos d) in HM by lia.
          assert (0 < 2 ^ Zpos d) by (apply Z.pow_pos_nonneg; lia). nia.
        + apply div_pow2_pos; lia.
      - intros He. apply Z.div_le_lower_bound; [apply Z.pow_pos_nonneg; lia|].
        replace (ey - ez) with (Zpos d) in HM by lia. lia. }
    destruct Hm1 as [Hm1 Hm1y].
    assert (Hm'pos : 0 < m') by lia.
    assert (Hdm' := Zdigits2_log2 m' Hm'pos).
    assert (Hlm' := Z.log2_nonneg m').
    set (n2 := Z.max 0 (Z.max (Zdigits2 m' + (ez + Zpos d) - 53) (-1074) - (ez + Zpos d))) in *.
    assert (Hq : 1 <= m' / 2 ^ n2) by (apply div_pow2_pos; lia).
    rewrite Heq. unfold rounded.
    destruct (m' / 2 ^ n2) as [|q|q] eqn:Hqe; try lia.
    destruct (ez + Zpos d + n2 <=? emax - prec); [|reflexivity].
    unfold SFleb, SFcompare.
    destruct (Z.compare_spec ey (ez + Zpos d + n2)) as [He|He|He]; try reflexivity; try lia.
    assert (n2 = 0) by lia. assert (ey = ez + Zpos d) by lia.
    rewrite H, Z.div_1_r in Hqe.
    rewrite Pos.compare_cont_spec. simpl.
    destruct (Pos.compare_spec my q); try reflexivity. specialize (Hm1y H0). lia.
Qed.

(** ** Order *)

Lemma SFcompare_antisym x y :
  SFcompare y x = option_map CompOpp (SFcompare x y).
Proof.
  destruct x as [sx|sx| |sx mx ex], y as [sy|sy| |sy my ey]; simpl;
    try reflexivity;
    try (destruct sx; reflexivity); try (destruct sy; reflexivity);
    try (destruct sx, sy; reflexivity).
  f_equal. rewrite (Z.compare_antisym ex ey).
  assert (H : Pos.compare_cont Eq my mx = CompOpp (Pos.compare_cont Eq mx my))
    by (symmetry; apply (Pos.compare_cont_antisym mx my Eq)).
  rewrite H.
  destruct sx, sy, (ex ?= ey), (Pos.compare_cont Eq mx my); reflexivity.
Qed.

Lemma SFleb_refl x : x <> S754_nan -> SFleb x x = true.
Proof.
  unfold SFleb. destruct x as [s|s| |s m e]; simpl; intros H; try congruence.
  - destruct s; reflexivity.
  - rewrite Z.compare_refl, Pos.compare_cont_refl. destruct s; reflexivity.
Qed.

Lemma SFltb_false_leb x y :
  x <> S754_nan -> y <> S754_nan -> SFltb x y = false -> SFleb y x = true.
Proof.
  intros Hx Hy. unfold SFltb, SFleb. rewrite (SFcompare_antisym x y).
  destruct (SFcompare x y) as [[]|] eqn:E; simpl; try congruence.
  destruct x, y; simpl in E; congruence.
Qed.

Lemma SFleb_ltb_false x y : SFleb x y = true -> SFltb y x = false.
Proof.
  unfold SFltb, SFleb. rewrite (SFcompare_antisym x y).
  destruct (SFcompare x y) as [[]|]; simpl; congruence.
Qed.

Lemma SFleb_trans x y z : SFleb x y = true -> SFleb y z = true -> SFleb x z = true.
Proof.
  unfold SFleb.
  destruct x as [sx|sx| |sx mx ex], y as [sy|sy| |sy my ey], z as [sz|sz| |sz mz ez];
    simpl; try congruence;
    try (destruct sx; congruence); try (destruct sy; congruence);
    try (destruct sz; congruence);
    try (destruct sx, sy; congruence); try (destruct sy, sz; congruence);
    try (destruct sx, sz; congruence);
    try (destruct sx, sy, sz; congruence).
  rewrite !Pos.compare_cont_spec; simpl.
  destruct sx, sy, sz; try congruence;
    destruct (Z.compare_spec ex ey), (Z.compare_spec ey ez), (Z.compare_spec ex ez);
    try congruence; try lia;
    destruct (Pos.compare_spec mx my), (Pos.compare_spec my mz), (Pos.compare_spec mx mz);
    simpl; try congruence; lia.
Qed.

Lemma SFeqb_zero x : SFeqb x (S754_zero false) = true -> exists s, x = S754_zero s.
Proof.
  unfold SFeqb. destruct x as [s|s| |s m e]; simpl; try congruence.
  - eauto.
  - destruct s; congruence.
  - destruct s; congruence.
Qed.

Lemma SFeqb_zero_false x :
  sf_nonneg x = true -> SFeqb x (S754_zero false) = false -> SFltb (S754_zero false) x = true.
Proof.
  unfold sf_nonneg, SFleb, SFeqb, SFltb.
  destruct x as [s|s| |s m e]; simpl; try congruence; destruct s; congruence.
Qed.

(** ** Addition and subtraction *)

Lemma SFadd_ge_r x y :
  valid_binary y = true -> sf_nonneg x = true -> sf_nonneg y = true ->
  SFleb y (SFadd prec emax x y) = true.
Proof.
  intros Hv Hx Hy.
  destruct x as [sx|[]| |[] mx ex], y as [sy|[]| |[] my ey];
    try discriminate Hx; try discriminate Hy; clear Hx Hy;
    try reflexivity; try (destruct sx; reflexivity);
    try (destruct sx, sy; reflexivity).
  - change (SFadd prec emax (S754_zero sx) (S754_finite false my ey))
      with (S754_finite false my ey).
    apply SFleb_refl. congruence.
  - simpl in Hv. unfold SFadd, cond_Zopp.
    rewrite <- Pos2Z.inj_add. unfold binary_normalize.
    apply binary_round_lower.
    + exact Hv.
    + apply Z.le_min_r.
    + rewrite Pos2Z.inj_add, (shl_align_fst my ey) by apply Z.le_min_r. lia.
Qed.

Lemma SFsub_zero_r x s :
  SFltb (S754_zero false) x = true -> SFsub prec emax x (S754_zero s) = x.
Proof.
  unfold SFltb. destruct x as [sx|sx| |sx m e]; simpl; try congruence.
Qed.

Lemma SFsub_diag x :
  match x with S754_zero _ | S754_finite _ _ _ => True | _ => False end ->
  SFsub prec emax x x = S754_zero false.
Proof.
  destruct x as [sx|sx| |sx m e]; try contradiction; intros _.
  - destruct sx; reflexivity.
  - unfold SFsub. rewrite Z.sub_diag. reflexivity.
Qed.

(** ** The sign of a rounded value *)

Lemma rounded_signed s m e : 0 <= m -> sf_signed s (rounded s m e).
Proof.
  unfold rounded. destruct m; try lia; intros _; [reflexivity|].
  destruct (e <=? emax - prec); reflexivity.
Qed.

Lemma binary_round_aux_signed s m e l :
  0 <= m -> sf_signed s (binary_round_aux prec emax s m e l).
Proof.
  intros Hm. destruct (binary_round_aux_spec s m e l Hm) as (m' & Hm' & Heq).
  cbv zeta in Heq. rewrite Heq. apply rounded_signed.
  apply Z.div_pos; [|apply Z.pow_pos_nonneg; lia].
  assert (0 <= m / 2 ^ Z.max 0 (fexp prec emax (Zdigits2 m + e) - e))
    by (apply Z.div_pos; [lia|apply Z.pow_pos_nonneg; lia]).
  lia.
Qed.

Lemma binary_round_signed s m e : sf_signed s (binary_round prec emax s m e).
Proof.
  unfold binary_round.
  destruct (shl_align m e (fexp prec emax (Z.pos (digits2_pos m) + e))) as [mz ez].
  apply binary_round_aux_signed. lia.
Qed.

Lemma binary_normalize_signed m e : 0 <= m ->
  sf_signed false (binary_normalize prec emax m e false).
Proof.
  destruct m; try lia; intros _; simpl; [reflexivity|apply binary_round_signed].
Qed.

Lemma SFldexp_signed x e : sf_signed false x -> sf_signed false (SFldexp prec emax x e).
Proof.
  destruct x as [s|s| |s m ex]; simpl; try tauto.
  intros ->. apply binary_round_signed.
Qed.

Lemma sf_signed_nonneg x : sf_signed false x -> sf_nonneg x = true.
Proof. destruct x as [s|s| |s m ex]; simpl; try tauto; intros ->; reflexivity. Qed.

Lemma SFdiv_signed x my ey :
  sf_nonneg x = true -> sf_nonneg (SFdiv prec emax x (S754_finite false my ey)) = true.
Proof.
  intros Hx.
  destruct x as [sx|[]| |[] mx ex]; try discriminate Hx; clear Hx;
    try reflexivity.
  apply sf_signed_nonneg. unfold SFdiv.
  destruct (SFdiv_core_binary prec emax (Zpos mx) ex (Zpos my) ey) as [[mz ez] lz] eqn:E.
  apply binary_round_aux_signed.
  unfold SFdiv_core_binary in E.
  set (s := ex - ey - _) in E.
  set (m' := match s with Z0 => Zpos mx | Zpos _ => Z.shiftl (Zpos mx) s | Zneg _ => 0 end) in E.
  assert (Hm' : 0 <= m').
  { subst m'. destruct s; try lia. apply Z.shiftl_nonneg. lia. }
  pose proof (Z.div_pos m' (Zpos my) Hm' eq_refl) as Hq.
  unfold Z.div in Hq. destruct (Z.div_eucl m' (Zpos my)) as [q r].
  inversion E; subst. exact Hq.
Qed.

End SF.

(** Their counterparts on primitive floats. *)

Module PF.

Lemma nonneg_spec x : nonneg x <-> sf_nonneg (Prim2SF x) = true.
Proof. unfold nonneg. rewrite FloatAxioms.leb_spec. reflexivity. Qed.

Lemma nonneg_not_nan x : nonneg x -> Prim2SF x <> S754_nan.
Proof. intros H. apply nonneg_spec in H. intros E. rewrite E in H. discriminate. Qed.

Lemma nonneg_0 : nonneg 0.
Proof. reflexivity. Qed.

Lemma leb_refl x : nonneg x -> (x <=? x)%float = true.
Proof. intros H. rewrite FloatAxioms.leb_spec. apply SF.SFleb_refl, nonneg_not_nan, H. Qed.

Lemma ltb_false_leb x y :
  nonneg x -> nonneg y -> (x <? y)%float = false -> (y <=? x)%float = true.
Proof.
  intros Hx Hy. rewrite FloatAxioms.ltb_spec, FloatAxioms.leb_spec.
  apply SF.SFltb_false_leb; apply nonneg_not_nan; assumption.
Qed.

Lemma leb_ltb_false x y : (x <=? y)%float = true -> (y <? x)%float = false.
Proof. rewrite FloatAxioms.ltb_spec, FloatAxioms.leb_spec. apply SF.SFleb_ltb_false. Qed.

Lemma leb_trans x y z :
  (x <=? y)%float = true -> (y <=? z)%float = true -> (x <=? z)%float = true.
Proof. rewrite !FloatAxioms.leb_spec. apply SF.SFleb_trans. Qed.

Lemma nonneg_le x y : nonneg x -> (x <=? y)%float = true -> nonneg y.
Proof. unfold nonneg. apply leb_trans. Qed.

Lemma add_ge_r x y : nonneg x -> nonneg y -> (y <=? x + y)%float = true.
Proof.
  intros Hx Hy. rewrite FloatAxioms.leb_spec, FloatAxioms.add_spec.
  apply SF.SFadd_ge_r; [apply Prim2SF_valid| |]; apply nonneg_spec; assumption.
Qed.

Lemma add_nonneg x y : nonneg x -> nonneg y -> nonneg (x + y).
Proof. intros Hx Hy. apply (nonneg_le y); [assumption|apply add_ge_r; assumption]. Qed.

Lemma div_10000_nonneg x : nonneg x -> nonneg (x / 10000).
Proof.
  intros Hx. apply nonneg_spec. rewrite FloatAxioms.div_spec.
  change (Prim2SF 10000) with (S754_finite false 5497558138880000 (-39)).
  apply SF.SFdiv_signed, nonneg_spec, Hx.
Qed.

Lemma sub_zero_r previous total :
  (previous =? 0)%float = true -> (0 <? total)%float = true ->
  (total - previous)%float = total.
Proof.
  rewrite FloatAxioms.eqb_spec, FloatAxioms.ltb_spec. intros Hp Ht.
  apply SF.SFeqb_zero in Hp. destruct Hp as [s Hs].
  apply Prim2SF_inj. rewrite FloatAxioms.sub_spec, Hs. apply SF.SFsub_zero_r. exact Ht.
Qed.

Lemma eqb_zero_false_ltb x :
  nonneg x -> (x =? 0)%float = false -> (0 <? x)%float = true.
Proof.
  rewrite FloatAxioms.eqb_spec, FloatAxioms.ltb_spec. intros Hx. apply SF.SFeqb_zero_false, nonneg_spec, Hx.
Qed.

Lemma sub_diag x : is_finite x = true -> (x - x)%float = 0%float.
Proof.
  unfold is_finite, is_nan, is_infinity. rewrite !FloatAxioms.eqb_spec, FloatAxioms.abs_spec.
  intros H. apply Prim2SF_inj. rewrite FloatAxioms.sub_spec.
  change (Prim2SF 0) with (S754_zero false). apply SF.SFsub_diag.
  change (Prim2SF infinity) with (S754_infinity false) in H.
  destruct (Prim2SF x) as [s|[]| |s m e]; try exact I; discriminate H.
Qed.


Lemma SF2Prim_signed s : sf_signed false s -> sf_signed false (Prim2SF (SF2Prim s)).
Proof.
  destruct s as [[]|[]| |[] m e]; simpl; try congruence; try tauto; intros _.
  rewrite Z_ldexp_spec, of_uint63_spec.
  apply SF.SFldexp_signed, SF.binary_normalize_signed.
  apply Uint63.to_Z_bounded.
Qed.

End PF.
(** * The reducer *)

Lemma float_of_int_nonneg n f : float_of_int n = Done f -> nonneg f.
Proof.
  unfold float_of_int.
  pose proof (SF.binary_normalize_signed (Z.of_N n) 0 (N2Z.is_nonneg n)) as H.
  assert (Hs : forall s, sf_signed false s -> nonneg (SF2Prim s))
    by (intros s Hs; apply PF.nonneg_spec, SF.sf_signed_nonneg, PF.SF2Prim_signed, Hs).
  destruct (binary_normalize prec emax (Z.of_N n) 0 false) as [s|s| |s m e] eqn:E;
    intros Heq; try discriminate Heq; injection Heq as Heq; rewrite <- Heq.
  - exact (Hs (S754_zero s) H).
  - exact (Hs S754_nan H).
  - exact (Hs (S754_finite s m e) H).
Qed.

Lemma raw_current_damage_nonneg t h raw :
  raw_current_damage_from_ocr t h = Done raw -> nonneg raw.
Proof.
  unfold raw_current_damage_from_ocr.
  destruct (float_of_int h) as [fh| | | |] eqn:Eh; try discriminate.
  destruct (float_of_int t) as [ft| | | |] eqn:Et; try discriminate.
  intros [= <-]. apply PF.add_nonneg.
  - eapply float_of_int_nonneg, Et.
  - apply PF.div_10000_nonneg. eapply float_of_int_nonneg, Eh.
Qed.

Lemma initial_state_ok : state_ok initial_state.
Proof. repeat split; reflexivity. Qed.

Lemma reset_block_ok st raw : state_ok st -> state_ok (reset_block st raw).
Proof.
  intros (Ho & Hr & Hb & Hle & Hp). unfold reset_block.
  destruct (is_reset_detected st raw); [|repeat split; assumption].
  repeat split; simpl; try assumption. apply PF.leb_refl, Ho.
Qed.

Lemma reset_block_overall st raw :
  overall_accumulated_damage (reset_block st raw) = overall_accumulated_damage st.
Proof. unfold reset_block. destruct (is_reset_detected st raw); reflexivity. Qed.

Lemma reset_block_previous st raw :
  previous_total_damage_for_diff (reset_block st raw) = previous_total_damage_for_diff st.
Proof. unfold reset_block. destruct (is_reset_detected st raw); reflexivity. Qed.

(** The candidate total is at least the offset it is built on. *)
Lemma candidate_ge_offset st raw :
  state_ok st -> nonneg raw ->
  (reset_offset st <=? current_calculated_overall_damage st raw)%float = true.
Proof.
  intros (Ho & Hr & Hb & Hle & Hp) Hraw.
  unfold current_calculated_overall_damage. apply PF.add_ge_r; assumption.
Qed.

Lemma monotonic_block_ok st is_reset t h raw st' jo uk total :
  state_ok st -> nonneg raw ->
  monotonic_block st is_reset t h raw = (st', (jo, uk, total)) ->
  nonneg (overall_accumulated_damage st')
  /\ nonneg (reset_offset st')
  /\ nonneg (last_successful_ocr_value_in_current_phase st')
  /\ (reset_offset st' <=? overall_accumulated_damage st')%float = true
  /\ total = overall_accumulated_damage st'
  /\ (overall_accumulated_damage st <=? overall_accumulated_damage st')%float = true.
Proof.
  intros Hok Hraw. pose proof (candidate_ge_offset st raw Hok Hraw) as Hc.
  destruct Hok as (Ho & Hr & Hb & Hle & Hp).
  unfold monotonic_block. destruct (is_rejected st raw) eqn:Hrej; intros [= <- <- <- <-]; simpl.
  - repeat split; try assumption. apply PF.leb_refl, Ho.
  - assert (Hn : nonneg (current_calculated_overall_damage st raw))
      by (apply (PF.nonneg_le (reset_offset st)); assumption).
    repeat split; try assumption.
    + destruct (updates_phase_value st is_reset raw); assumption.
    + apply PF.ltb_false_leb; assumption.
Qed.

Lemma process_reading_ok st frame rd st' row :
  state_ok st -> process_reading st frame rd = Done (st', row) ->
  state_ok st'
  /\ (overall_accumulated_damage st <=? overall_accumulated_damage st')%float = true
  /\ current_total_damage_to_log row = overall_accumulated_damage st'.
Proof.
  intros Hok. destruct rd as [[t h]|]; unfold process_reading.
  - unfold present_branch.
    destruct (raw_current_damage_from_ocr t h) as [raw| | | |] eqn:Eraw; try discriminate.
    cbn [mbind outcome_bind].
    destruct (monotonic_block (reset_block st raw) (is_reset_detected st raw) t h raw)
      as [st1 [[jo uk] total]] eqn:Em.
    pose proof (monotonic_block_ok _ _ _ _ _ _ _ _ _
                  (reset_block_ok st raw Hok)
                  (raw_current_damage_nonneg _ _ _ Eraw) Em)
      as (H1 & H2 & H3 & H4 & H5 & H6).
    rewrite reset_block_overall in H6.
    intros [= <- <-]. simpl. subst total. repeat split; assumption.
  - intros [= <- <-]. destruct Hok as (Ho & Hr & Hb & Hle & Hp). simpl.
    repeat split; try assumption. apply PF.leb_refl, Ho.
Qed.

Lemma reachable_ok st : reachable st -> state_ok st.
Proof.
  induction 1 as [|st frame rd st' row _ IH Hstep].
  - apply initial_state_ok.
  - eapply process_reading_ok; eassumption.
Qed.

(** ** Runs *)

Lemma strongly_sorted_lookup {A} (R : A -> A -> Prop) (l : list A) :
  StronglySorted R l ->
  forall i j a b, (i < j)%nat -> l !! i = Some a -> l !! j = Some b -> R a b.
Proof.
  induction 1 as [|x l Hs IH Hall]; intros i j a b Hij Hi Hj.
  - rewrite lookup_nil in Hi. discriminate.
  - destruct j as [|j]; [lia|]. destruct i as [|i]; simpl in Hi, Hj.
    + injection Hi as <-. rewrite List.Forall_forall in Hall.
      apply Hall. apply list_elem_of_In. eapply list_elem_of_lookup_2, Hj.
    + apply (IH i j); [lia|assumption..].
Qed.

Lemma run_readings_ok st l rows st' :
  state_ok st -> run_readings st l = Done (rows, st') ->
  state_ok st'
  /\ (overall_accumulated_damage st <=? overall_accumulated_damage st')%float = true
  /\ List.Forall (fun row =>
        (overall_accumulated_damage st <=? current_total_damage_to_log row)%float = true
        /\ (current_total_damage_to_log row <=? overall_accumulated_damage st')%float = true)
       rows
  /\ StronglySorted total_le rows.
Proof.
  revert st rows st'. induction l as [|[frame rd] l IH]; intros st rows st' Hok; simpl.
  - intros [= <- <-]. repeat split; try apply Hok; try constructor.
    apply PF.leb_refl, Hok.
  - destruct (process_reading st frame rd) as [[st1 row]| | | |] eqn:E1; try discriminate.
    cbn [mbind outcome_bind].
    destruct (run_readings st1 l) as [[rows1 st2]| | | |] eqn:E2; try discriminate.
    intros [= <- <-].
    destruct (process_reading_ok _ _ _ _ _ Hok E1) as (Hok1 & Hle1 & Htot).
    destruct (IH _ _ _ Hok1 E2) as (Hok2 & Hle2 & Hall & Hsorted).
    split; [assumption|]. split; [eapply PF.leb_trans; eassumption|]. split.
    + constructor.
      * rewrite Htot. split; assumption.
      * eapply List.Forall_impl; [|exact Hall].
        intros r [Ha Hb]; split; [eapply PF.leb_trans; eassumption|assumption].
    + constructor; [assumption|].
      eapply List.Forall_impl; [|exact Hall].
      intros r [Ha _]. unfold total_le. rewrite Htot. exact Ha.
Qed.

Lemma run_readings_frames st l rows st' :
  run_readings st l = Done (rows, st') ->
  map current_frame_to_process rows = map fst l.
Proof.
  revert st rows st'. induction l as [|[frame rd] l IH]; intros st rows st'; simpl.
  - intros [= <- <-]. reflexivity.
  - destruct (process_reading st frame rd) as [[st1 row]| | | |] eqn:E1; try discriminate.
    cbn [mbind outcome_bind].
    destruct (run_readings st1 l) as [[rows1 st2]| | | |] eqn:E2; try discriminate.
    intros [= <- <-]. simpl. f_equal.
    + destruct rd as [[t h]|]; simpl in E1.
      * destruct (present_branch st t h) as [[s1 [[jo uk] total]]| | | |]; try discriminate.
        injection E1 as <- <-. reflexivity.
      * injection E1 as <- <-. reflexivity.
    + eapply IH, E2.
Qed.

(** The [while] is the reducer run over the frames it visits. *)
Lemma frame_loop_run_readings fuel tm hm interval max frame st r :
  frame_loop fuel tm hm interval max frame st = Done r ->
  run_readings st
    (map (fun f => (f, frame_reading tm hm f)) (loop_frames fuel interval max frame))
  = Done r.
Proof.
  revert frame st r. induction fuel as [|fuel IH]; intros frame st r; simpl;
    destruct (frame <=? max); try discriminate; try (intros [= <-]; reflexivity).
  unfold loop_body. simpl.
  destruct (process_reading st frame (frame_reading tm hm frame)) as [[st1 row]| | | |];
    try discriminate.
  cbn [mbind outcome_bind].
  destruct (frame_loop fuel tm hm interval max (frame + interval) st1)
    as [[rows1 st2]| | | |] eqn:E2; try discriminate.
  rewrite (IH _ _ _ E2). trivial.
Qed.

(** An iteration ends with a row or with [OverflowError]. *)
Lemma process_reading_outcome st frame rd :
  (exists r, process_reading st frame rd = Done r)
  \/ process_reading st frame rd = OverflowError.
Proof.
  destruct rd as [[t h]|]; simpl; [|eauto].
  unfold present_branch, raw_current_damage_from_ocr, float_of_int.
  destruct (binary_normalize prec emax (Z.of_N h) 0 false); cbn [mbind outcome_bind]; eauto;
    destruct (binary_normalize prec emax (Z.of_N t) 0 false); cbn [mbind outcome_bind]; eauto.
Qed.

(** With the fuel [process_ocr] gives it, the loop does not stop early. *)
Lemma frame_loop_fuel fuel tm hm interval max frame st :
  0 < interval -> (Z.to_nat (max - frame + 1) <= fuel)%nat ->
  frame_loop fuel tm hm interval max frame st <> OutOfFuel.
Proof.
  intros Hi. revert frame st. induction fuel as [|fuel IH]; intros frame st Hf; simpl;
    destruct (Z.leb_spec frame max); try discriminate; try lia.
  unfold loop_body.
  destruct (process_reading_outcome st frame (frame_reading tm hm frame))
    as [[[st1 row] ->]| ->]; cbn [mbind outcome_bind]; try discriminate.
  specialize (IH (frame + interval) st1 ltac:(lia)).
  destruct (frame_loop fuel tm hm interval max (frame + interval) st1) as [[rows1 st2]| | | |];
    cbn [mbind outcome_bind]; try discriminate. congruence.
Qed.

Lemma sampled_frames_S start interval n :
  sampled_frames start interval (S n)
  = start :: sampled_frames (start + interval) interval n.
Proof.
  unfold sampled_frames. simpl. f_equal; [lia|].
  rewrite <- seq_shift, map_map. apply map_ext. intros k. lia.
Qed.

Lemma loop_frames_sampled fuel interval max frame :
  0 < interval -> (Z.to_nat (max - frame + 1) <= fuel)%nat ->
  loop_frames fuel interval max frame
  = sampled_frames frame interval (Z.to_nat ((max - frame) / interval + 1)).
Proof.
  intros Hi. revert frame. induction fuel as [|fuel IH]; intros frame Hf; simpl;
    destruct (Z.leb_spec frame max); try lia.
  - assert ((max - frame) / interval < 0) by (apply Z.div_lt_upper_bound; lia).
    replace (Z.to_nat ((max - frame) / interval + 1)) with O by lia. reflexivity.
  - rewrite IH by lia.
    assert (0 <= (max - frame) / interval) by (apply Z.div_pos; lia).
    replace (max - (frame + interval)) with (max - frame + (-1) * interval) by lia.
    rewrite Z.div_add by lia.
    replace (Z.to_nat ((max - frame) / interval + 1))
      with (S (Z.to_nat ((max - frame) / interval + -1 + 1))) by lia.
    rewrite sampled_frames_S. reflexivity.
  - assert ((max - frame) / interval < 0) by (apply Z.div_lt_upper_bound; lia).
    replace (Z.to_nat ((max - frame) / interval + 1)) with O by lia. reflexivity.
Qed.

Lemma fold_left_max_spec l x :
  (fold_left Z.max l x = x \/ In (fold_left Z.max l x) l)
  /\ x <= fold_left Z.max l x
  /\ forall y, In y l -> y <= fold_left Z.max l x.
Proof.
  revert x. induction l as [|a l IH]; intros x; simpl.
  - repeat split; [left; reflexivity|lia|tauto].
  - destruct (IH (Z.max x a)) as (H1 & H2 & H3). repeat split.
    + destruct H1 as [H1|H1]; [|right; right; exact H1].
      rewrite H1. destruct (Z.max_spec x a) as [[_ ->]|[_ ->]]; [right; left|left]; reflexivity.
    + lia.
    + intros y [<-|Hy]; [lia|apply H3, Hy].
Qed.

Lemma list_max_spec l m :
  list_max l = Some m -> In m l /\ forall y, In y l -> y <= m.
Proof.
  destruct l as [|x l]; [discriminate|]. intros [= <-].
  destruct (fold_left_max_spec l x) as (H1 & H2 & H3). split.
  - destruct H1 as [-> |H1]; [left; reflexivity|right; exact H1].
  - intros y [<-|Hy]; [exact H2|apply H3, Hy].
Qed.

Lemma all_frame_numbers_spec tm hm f :
  In f (all_frame_numbers tm hm) <-> f ∈ dom tm ∪ dom hm.
Proof.
  unfold all_frame_numbers. rewrite <- list_elem_of_In.
  rewrite merge_sort_Permutation. apply elem_of_elements.
Qed.

(** What [process_ocr] returning rows amounts to. *)
Lemma process_ocr_done tm hm start interval fps rows :
  process_ocr tm hm start interval fps = Done rows ->
  exists max st',
    0 <= start /\ 0 < interval
    /\ list_max (all_frame_numbers tm hm) = Some max
    /\ frame_loop (Z.to_nat (max - start + 1)) tm hm interval max start initial_state
       = Done (rows, st').
Proof.
  unfold process_ocr, process_ocr_fuel, enough_fuel.
  destruct (Z.ltb_spec start 0); [discriminate|].
  destruct (Z.leb_spec interval 0); [discriminate|]. simpl.
  destruct (fps <=? 0)%float; [discriminate|].
  destruct (list_max (all_frame_numbers tm hm)) as [max|]; [|discriminate].
  destruct (frame_loop _ tm hm interval max start initial_state)
    as [[rows1 st']| | | |] eqn:E; try discriminate.
  intros [= <-]. exists max, st'. repeat split; assumption || reflexivity.
Qed.

(** ** Readings that do not overflow *)

Lemma shl_align_spec mx ex e' :
  snd (shl_align mx ex e') = Z.min ex e'
  /\ Zpos (fst (shl_align mx ex e'))
     = Zpos mx * 2 ^ (ex - snd (shl_align mx ex e')).
Proof.
  unfold shl_align. destruct (e' - ex) as [|d|d] eqn:Hd; cbn [fst snd].
  - rewrite Z.sub_diag. lia.
  - rewrite Z.sub_diag. lia.
  - split; [lia|]. rewrite SF.pos_iter_xO. f_equal. f_equal. lia.
Qed.

(** A mantissa of at most 1023 bits, exponent included, rounds to a finite
    value. *)
Lemma binary_round_finite s m e s' :
  Z.log2 (Zpos m) + 1 + e <= 1023 ->
  binary_round prec emax s m e <> S754_infinity s'.
Proof.
  intros Hd. unfold binary_round.
  destruct (shl_align_spec m e (fexp prec emax (Zpos (digits2_pos m) + e))) as [He Hm].
  destruct (shl_align m e (fexp prec emax (Zpos (digits2_pos m) + e))) as [mz ez].
  cbn [fst snd] in He, Hm.
  change (Zpos (digits2_pos m)) with (Zdigits2 (Zpos m)) in He.
  rewrite SF.Zdigits2_log2 in He by lia.
  assert (Hlz : Z.log2 (Zpos mz) = Z.log2 (Zpos m) + (e - ez)).
  { rewrite Hm, Z.log2_mul_pow2 by lia. lia. }
  destruct (SF.binary_round_aux_spec s (Zpos mz) ez loc_Exact) as (m' & Hm' & Heq); [lia|].
  cbv zeta in Heq. rewrite Heq. clear Heq.
  rewrite (SF.Zdigits2_log2 (Zpos mz)) in * by lia.
  rewrite !SF.fexp_eq in *.
  set (n1 := Z.max 0 (Z.max (Z.log2 (Zpos mz) + 1 + ez - 53) (-1074) - ez)) in *.
  assert (Hn1 : 0 <= n1) by lia.
  assert (Hl1 : Z.log2 (Zpos mz / 2 ^ n1) <= 52).
  { rewrite <- Z.shiftr_div_pow2, Z.log2_shiftr by lia. lia. }
  assert (H1 : 0 <= Zpos mz / 2 ^ n1) by (apply Z.div_pos; [lia|apply Z.pow_pos_nonneg; lia]).
  assert (Hdm' : Zdigits2 m' <= 54).
  { destruct (Z.eq_dec m' 0) as [->|Hne]; [simpl; lia|].
    rewrite SF.Zdigits2_log2 by lia.
    pose proof (Z.log2_le_mono m' (Z.succ (Zpos mz / 2 ^ n1)) ltac:(lia)).
    pose proof (Z.log2_succ_le (Zpos mz / 2 ^ n1)). lia. }
  unfold rounded.
  destruct (m' / 2 ^ _) as [|q|q]; try discriminate.
  destruct (Z.leb_spec (ez + n1 + Z.max 0 (Z.max (Zdigits2 m' + (ez + n1) - 53) (-1074) - (ez + n1)))
              (emax - prec)) as [Hle|Hgt]; [discriminate|].
  exfalso. change (emax - prec) with 971 in Hgt. lia.
Qed.

Lemma float_of_int_done n :
  (n < 2 ^ 1023)%N -> exists f, float_of_int n = Done f.
Proof.
  intros Hn. unfold float_of_int. destruct n as [|p]; [eexists; reflexivity|].
  assert (Hl : Z.log2 (Zpos p) + 1 + 0 <= 1023).
  { assert (Z.log2 (Zpos p) < 1023); [|lia].
    apply Z.log2_lt_pow2; [lia|].
    change (Zpos p) with (Z.of_N (Npos p)).
    change (2 ^ 1023) with (Z.of_N (2 ^ 1023)). lia. }
  change (binary_normalize prec emax (Z.of_N (N.pos p)) 0 false)
    with (binary_round prec emax false p 0).
  pose proof (fun s' => binary_round_finite false p 0 s' Hl) as Hfin.
  destruct (binary_round prec emax false p 0) as [s|s| |s m e]; try (eexists; reflexivity).
  exfalso. apply (Hfin s). reflexivity.
Qed.

Lemma loop_body_done tm hm st frame :
  readings_bounded tm -> readings_bounded hm ->
  exists r, loop_body tm hm st frame = Done r.
Proof.
  intros Ht Hh. unfold loop_body, frame_reading.
  destruct (tm !! frame) as [t|] eqn:Et; [|eexists; reflexivity].
  destruct (hm !! frame) as [h|] eqn:Eh; [|eexists; reflexivity].
  destruct (float_of_int_done t (Ht _ _ Et)) as [ft Hft].
  destruct (float_of_int_done h (Hh _ _ Eh)) as [fh Hfh].
  unfold process_reading, present_branch, raw_current_damage_from_ocr.
  rewrite Hft, Hfh. eexists; reflexivity.
Qed.

Lemma frame_loop_done fuel tm hm interval max frame st :
  readings_bounded tm -> readings_bounded hm ->
  0 < interval -> (Z.to_nat (max - frame + 1) <= fuel)%nat ->
  exists r, frame_loop fuel tm hm interval max frame st = Done r.
Proof.
  intros Ht Hh Hi. revert frame st.
  induction fuel as [|fuel IH]; intros frame st Hf; simpl;
    destruct (Z.leb_spec frame max); try lia; try (eexists; reflexivity).
  destruct (loop_body_done tm hm st frame Ht Hh) as [[st1 row] ->].
  cbn [mbind outcome_bind].
  destruct (IH (frame + interval) st1 ltac:(lia)) as [[rows st2] ->].
  eexists; reflexivity.
Qed.

(** With a valid configuration, at least one image and readings below
    [2 ^ 1023], [process_ocr] writes its rows. *)
Lemma process_ocr_writes_rows tm hm start_frame frame_interval fps :
  0 <= start_frame -> 0 < frame_interval -> (fps <=? 0)%float = false ->
  dom tm ∪ dom hm <> ∅ ->
  readings_bounded tm -> readings_bounded hm ->
  exists rows, process_ocr tm hm start_frame frame_interval fps = Done rows.
Proof.
  intros Hs Hi Hfps Hne Ht Hh. unfold process_ocr, process_ocr_fuel, enough_fuel.
  destruct (Z.ltb_spec start_frame 0); [lia|].
  destruct (Z.leb_spec frame_interval 0); [lia|]. rewrite Hfps. cbn [orb].
  destruct (list_max (all_frame_numbers tm hm)) as [max|] eqn:Emax.
  - destruct (frame_loop_done (Z.to_nat (max - start_frame + 1)) tm hm frame_interval max
                start_frame initial_state Ht Hh Hi (Nat.le_refl _)) as [[rows st'] ->].
    exists rows. reflexivity.
  - exfalso. apply Hne. unfold list_max in Emax.
    destruct (all_frame_numbers tm hm) as [|x l] eqn:El; [|discriminate].
    apply set_eq. intros f. rewrite <- all_frame_numbers_spec, El. set_solver.
Qed.

(** * The properties of the specification *)

(** C1.  Monotonicity.  Over any stretch of the loop that starts in a state
    the reducer can be in, the emitted totals never decrease from one row
    to the next, every emitted total lies between the carried
    [overall_accumulated_damage] before and after the stretch, and the
    carried value itself does not decrease. *)
Theorem totals_never_decrease fuel tm hm interval max frame st rows st' :
  reachable st ->
  frame_loop fuel tm hm interval max frame st = Done (rows, st') ->
  (forall i r1 r2, rows !! i = Some r1 -> rows !! S i = Some r2 ->
     (current_total_damage_to_log r1 <=? current_total_damage_to_log r2)%float = true)
  /\ (forall r, In r rows ->
        (overall_accumulated_damage st <=? current_total_damage_to_log r)%float = true
        /\ (current_total_damage_to_log r <=? overall_accumulated_damage st')%float = true)
  /\ (overall_accumulated_damage st <=? overall_accumulated_damage st')%float = true.
Proof.
  intros Hr Hloop. apply frame_loop_run_readings in Hloop.
  destruct (run_readings_ok _ _ _ _ (reachable_ok _ Hr) Hloop) as (_ & Hle & Hall & Hs).
  split; [|split].
  - intros i r1 r2 H1 H2.
    apply (strongly_sorted_lookup total_le rows Hs i (S i)); [lia|assumption..].
  - rewrite List.Forall_forall in Hall. exact Hall.
  - exact Hle.
Qed.

Lemma totals_never_decrease_witness :
  reachable initial_state
  /\ frame_loop 5 scenario_trillion scenario_hundred_million 24 96 0 initial_state
     = Done (scenario_rows, scenario_final_state)
  /\ (forall i r1 r2, scenario_rows !! i = Some r1 -> scenario_rows !! S i = Some r2 ->
        (current_total_damage_to_log r1 <=? current_total_damage_to_log r2)%float = true).
Proof.
  split; [apply reachable_initial|]. split; [vm_compute; reflexivity|].
  apply (totals_never_decrease 5 scenario_trillion scenario_hundred_million 24 96 0
           initial_state scenario_rows scenario_final_state).
  - apply reachable_initial.
  - vm_compute. reflexivity.
Defined.

(** The same for a whole run of [process_ocr]. *)
Lemma process_ocr_totals_never_decrease tm hm start interval fps rows :
  process_ocr tm hm start interval fps = Done rows ->
  forall i j ri rj, (i < j)%nat -> rows !! i = Some ri -> rows !! j = Some rj ->
    (current_total_damage_to_log ri <=? current_total_damage_to_log rj)%float = true.
Proof.
  intros H. apply process_ocr_done in H. destruct H as (max & st' & _ & _ & _ & Hloop).
  apply frame_loop_run_readings in Hloop.
  destruct (run_readings_ok _ _ _ _ initial_state_ok Hloop) as (_ & _ & _ & Hs).
  intros i j ri rj. apply (strongly_sorted_lookup total_le rows Hs).
Qed.

(** C2.  Reset detection.  A reset is declared exactly when the three
    conditions hold, with the thresholds 0.01 and 0.00001; exactly then
    [reset_offset] becomes the current [overall_accumulated_damage] and
    the phase value becomes 0, nothing else changes, and the rest of the
    iteration leaves [reset_offset] as the reset [if] left it.  So for the
    iteration of a present frame as a whole: when a reset is declared the
    state after the frame has the total before the frame as its
    [reset_offset], and as its phase value 0, or [raw] when the lines
    after the reset seed it again (the frame is not rejected and
    [raw > 0]), never the phase value before the frame; when none is
    declared [reset_offset] is the one before the frame. *)
Theorem reset_detection st raw :
  (is_reset_detected st raw = true <->
     (0 <? last_successful_ocr_value_in_current_phase st)%float = true
     /\ (raw <? last_successful_ocr_value_in_current_phase st * 0.01)%float = true
     /\ (raw <? 0.00001)%float = true)
  /\ (is_reset_detected st raw = true ->
      reset_block st raw =
      {| overall_accumulated_damage := overall_accumulated_damage st;
         last_successful_ocr_value_in_current_phase := 0%float;
         reset_offset := overall_accumulated_damage st;
         last_valid_jo := last_valid_jo st;
         last_valid_uk := last_valid_uk st;
         previous_total_damage_for_diff := previous_total_damage_for_diff st |})
  /\ (is_reset_detected st raw = false -> reset_block st raw = st)
  /\ (forall t h,
        reset_offset (fst (monotonic_block (reset_block st raw)
                             (is_reset_detected st raw) t h raw))
        = if is_reset_detected st raw then overall_accumulated_damage st
          else reset_offset st)
  /\ (forall frame t h st' row,
        raw_current_damage_from_ocr t h = Done raw ->
        process_reading st frame (Some (t, h)) = Done (st', row) ->
        (is_reset_detected st raw = true ->
           reset_offset st' = overall_accumulated_damage st
           /\ last_successful_ocr_value_in_current_phase st'
              = if (raw + overall_accumulated_damage st
                    <? overall_accumulated_damage st)%float then 0%float
                else if (0 <? raw)%float then raw else 0%float)
        /\ (is_reset_detected st raw = false -> reset_offset st' = reset_offset st)).
Proof.
  split; [|split; [|split; [|split]]].
  - unfold is_reset_detected, RESET_DROP_FACTOR, SMALL_ABSOLUTE_RESET_THRESHOLD.
    rewrite !andb_true_iff. tauto.
  - intros H. unfold reset_block. rewrite H. reflexivity.
  - intros H. unfold reset_block. rewrite H. reflexivity.
  - intros t h. unfold monotonic_block, reset_block.
    destruct (is_reset_detected st raw), (is_rejected _ raw); reflexivity.
  - intros frame t h st' row Hraw. unfold process_reading, present_branch.
    rewrite Hraw. cbn [mbind outcome_bind].
    unfold monotonic_block, is_rejected, current_calculated_overall_damage,
      updates_phase_value, reset_block.
    destruct (is_reset_detected st raw).
    + cbn [reset_offset overall_accumulated_damage
           last_successful_ocr_value_in_current_phase].
      destruct (raw + overall_accumulated_damage st <? overall_accumulated_damage st)%float;
        cbn; intros [= <- <-]; cbn; (split; [intros _|discriminate]).
      * split; reflexivity.
      * split; [reflexivity|]. rewrite orb_true_r, andb_true_r. reflexivity.
    + destruct (raw + reset_offset st <? overall_accumulated_damage st)%float;
        cbn; intros [= <- <-]; cbn; (split; [discriminate|intros _; reflexivity]).
Qed.

Lemma reset_detection_witness :
  is_reset_detected state_at_5_2 0%float = true
  /\ raw_current_damage_from_ocr 0 0 = Done 0%float
  /\ process_reading state_at_5_2 48 (Some (0%N, 0%N))
     = Done (mk_state 5.2 0 5.2 0 0 5.2, mk_row 48 0 0 5.2 0)
  /\ reset_offset (mk_state 5.2 0 5.2 0 0 5.2) = overall_accumulated_damage state_at_5_2
  /\ last_successful_ocr_value_in_current_phase (mk_state 5.2 0 5.2 0 0 5.2) = 0%float.
Proof.
  assert (Hd : is_reset_detected state_at_5_2 0%float = true) by (vm_compute; reflexivity).
  assert (Hraw : raw_current_damage_from_ocr 0 0 = Done 0%float)
    by (vm_compute; reflexivity).
  assert (Hstep : process_reading state_at_5_2 48 (Some (0%N, 0%N))
                  = Done (mk_state 5.2 0 5.2 0 0 5.2, mk_row 48 0 0 5.2 0))
    by (vm_compute; reflexivity).
  destruct (reset_detection state_at_5_2 0%float) as (_ & _ & _ & _ & H).
  destruct (H 48 0%N 0%N _ _ Hraw Hstep) as [Hreset _].
  destruct (Hreset Hd) as [Hoff Hphase].
  split; [exact Hd|]. split; [exact Hraw|]. split; [exact Hstep|]. split; [exact Hoff|].
  rewrite Hphase. vm_compute. reflexivity.
Defined.

(** C3.  The candidate total.  On a present frame, with the offset and
    the phase value as the reset [if] leaves them and
    [candidate_total = raw + reset_offset]: a candidate below the carried
    total is discarded, the carried total is emitted with the components
    logged last and nothing is updated; otherwise the candidate becomes
    the carried total and is emitted with the current digit pair, which
    is remembered, and the phase value becomes [raw] exactly when
    [raw > 0] and ([raw >=] the phase value before the frame, or a reset
    was detected on this frame). *)
Theorem candidate_total_rule st frame t h raw st' row :
  raw_current_damage_from_ocr t h = Done raw ->
  process_reading st frame (Some (t, h)) = Done (st', row) ->
  let is_reset := is_reset_detected st raw in
  let candidate_total := (raw + reset_offset (reset_block st raw))%float in
  ((candidate_total <? overall_accumulated_damage st)%float = true ->
     overall_accumulated_damage st' = overall_accumulated_damage st
     /\ current_total_damage_to_log row = overall_accumulated_damage st
     /\ trillion_val_for_excel row = last_valid_jo st
     /\ hundred_million_val_for_excel row = last_valid_uk st
     /\ last_valid_jo st' = last_valid_jo st
     /\ last_valid_uk st' = last_valid_uk st
     /\ last_successful_ocr_value_in_current_phase st'
        = last_successful_ocr_value_in_current_phase (reset_block st raw))
  /\ ((candidate_total <? overall_accumulated_damage st)%float = false ->
     overall_accumulated_damage st' = candidate_total
     /\ current_total_damage_to_log row = candidate_total
     /\ trillion_val_for_excel row = t
     /\ hundred_million_val_for_excel row = h
     /\ last_valid_jo st' = t
     /\ last_valid_uk st' = h
     /\ last_successful_ocr_value_in_current_phase st'
        = if ((0 <? raw)%float
              && ((last_successful_ocr_value_in_current_phase st <=? raw)%float
                  || is_reset))
          then raw
          else last_successful_ocr_value_in_current_phase (reset_block st raw)).
Proof.
  intros Hraw. unfold process_reading, present_branch. rewrite Hraw.
  cbn [mbind outcome_bind].
  unfold monotonic_block, is_rejected, current_calculated_overall_damage.
  rewrite reset_block_overall. cbv zeta.
  destruct (raw + reset_offset (reset_block st raw) <? overall_accumulated_damage st)%float;
    cbn; intros [= <- <-];
    (split; [intros Hc|intros Hc]; try discriminate Hc; cbn).
  - unfold reset_block. destruct (is_reset_detected st raw); repeat split; reflexivity.
  - repeat split; try reflexivity.
    unfold updates_phase_value, reset_block.
    destruct (is_reset_detected st raw); cbn; [|reflexivity].
    destruct (0 <? raw)%float; cbn; [|reflexivity].
    rewrite !orb_true_r. reflexivity.
Qed.

Lemma candidate_total_rule_witness :
  raw_current_damage_from_ocr 0 5 = Done 0.0005%float
  /\ process_reading scenario_state_at_48 72 (Some (0%N, 5%N))
     = Done (scenario_state_at_48, mk_row 72 2 1500 2.15 0)
  /\ current_total_damage_to_log (mk_row 72 2 1500 2.15 0)
     = overall_accumulated_damage scenario_state_at_48.
Proof.
  split; [vm_compute; reflexivity|]. split; [vm_compute; reflexivity|].
  destruct (candidate_total_rule scenario_state_at_48 72 0%N 5%N 0.0005%float
              scenario_state_at_48 (mk_row 72 2 1500 2.15 0)) as [Hrej _];
    [vm_compute; reflexivity..|].
  apply Hrej. vm_compute. reflexivity.
Defined.

(** The delta of a row and the state after it. *)
Lemma process_reading_delta st frame rd st' row :
  process_reading st frame rd = Done (st', row) ->
  damage_change row
  = compute_damage_change (previous_total_damage_for_diff st)
      (current_total_damage_to_log row)
  /\ previous_total_damage_for_diff st' = current_total_damage_to_log row.
Proof.
  destruct rd as [[t h]|]; unfold process_reading.
  - unfold present_branch.
    destruct (raw_current_damage_from_ocr t h) as [raw| | | |]; try discriminate.
    cbn [mbind outcome_bind].
    unfold monotonic_block. destruct (is_rejected _ raw); cbn; intros [= <- <-]; cbn;
      rewrite reset_block_previous; split; reflexivity.
  - intros [= <- <-]. split; reflexivity.
Qed.

Lemma compute_damage_change_sub previous total :
  (previous <=? total)%float = true ->
  compute_damage_change previous total = (total - previous)%float.
Proof.
  intros Hle. unfold compute_damage_change.
  destruct ((previous =? 0)%float && (0 <? total)%float) eqn:E.
  - apply andb_prop in E. destruct E as [E1 E2].
    symmetry. apply PF.sub_zero_r; assumption.
  - rewrite Hle. reflexivity.
Qed.

Lemma compute_damage_change_first previous total :
  (previous =? 0)%float = true -> nonneg total -> (total =? 0)%float = false ->
  compute_damage_change previous total = total.
Proof.
  intros Hp Hn Ht. unfold compute_damage_change.
  rewrite Hp, (PF.eqb_zero_false_ltb total Hn Ht). reflexivity.
Qed.

Lemma last_cons_default {A} (x : A) (l : list A) (d d' : A) :
  List.last (x :: l) d = List.last (x :: l) d'.
Proof.
  revert x. induction l as [|y l IH]; intros x; [reflexivity|].
  change (List.last (y :: l) d = List.last (y :: l) d'). apply IH.
Qed.

Lemma run_readings_deltas st l rows st' :
  run_readings st l = Done (rows, st') ->
  (forall r0, rows !! O = Some r0 ->
     damage_change r0
     = compute_damage_change (previous_total_damage_for_diff st)
         (current_total_damage_to_log r0))
  /\ (forall i r1 r2, rows !! i = Some r1 -> rows !! S i = Some r2 ->
     damage_change r2
     = compute_damage_change (current_total_damage_to_log r1)
         (current_total_damage_to_log r2))
  /\ previous_total_damage_for_diff st'
     = List.last (map current_total_damage_to_log rows) (previous_total_damage_for_diff st).
Proof.
  revert st rows st'. induction l as [|[frame rd] l IH]; intros st rows st'; simpl.
  - intros [= <- <-]. repeat split; intros; discriminate.
  - destruct (process_reading st frame rd) as [[st1 row]| | | |] eqn:E1; try discriminate.
    cbn [mbind outcome_bind].
    destruct (run_readings st1 l) as [[rows1 st2]| | | |] eqn:E2; try discriminate.
    intros [= <- <-].
    destruct (process_reading_delta _ _ _ _ _ E1) as [Hd Hp].
    destruct (IH _ _ _ E2) as (H0 & HS & Hl). rewrite Hp in H0, Hl.
    split; [|split].
    + intros r0 [= <-]. exact Hd.
    + intros [|i] r1 r2; simpl.
      * intros [= <-]. apply H0.
      * apply HS.
    + rewrite Hl. destruct rows1 as [|r rows1]; [reflexivity|].
      cbn [map]. exact (last_cons_default _ _ _ _).
Qed.

(** C4.  Deltas.  In a run from the initial state, the first row to carry a
    nonzero total has that total as its delta; every row after the first
    has the difference of its total and the total of the row before as
    its delta, the branch that clamps to 0 being never taken; and after
    every row [previous_total_damage_for_diff] is the total just
    emitted. *)
Theorem damage_change_is_difference fuel tm hm interval max frame rows st' :
  frame_loop fuel tm hm interval max frame initial_state = Done (rows, st') ->
  (forall i row, rows !! i = Some row ->
     (forall j r, (j < i)%nat -> rows !! j = Some r ->
        (current_total_damage_to_log r =? 0)%float = true) ->
     (current_total_damage_to_log row =? 0)%float = false ->
     damage_change row = current_total_damage_to_log row)
  /\ (forall i r1 r2, rows !! i = Some r1 -> rows !! S i = Some r2 ->
     (current_total_damage_to_log r1 <=? current_total_damage_to_log r2)%float = true
     /\ damage_change r2
        = (current_total_damage_to_log r2 - current_total_damage_to_log r1)%float)
  /\ previous_total_damage_for_diff st'
     = List.last (map current_total_damage_to_log rows) 0%float
  /\ (forall st f rd st1 row, process_reading st f rd = Done (st1, row) ->
     previous_total_damage_for_diff st1 = current_total_damage_to_log row).
Proof.
  intros Hloop. apply frame_loop_run_readings in Hloop.
  destruct (run_readings_deltas _ _ _ _ Hloop) as (H0 & HS & Hl).
  destruct (run_readings_ok _ _ _ _ initial_state_ok Hloop) as (_ & _ & Hall & Hs).
  rewrite List.Forall_forall in Hall.
  assert (Hnn : forall i r, rows !! i = Some r -> nonneg (current_total_damage_to_log r)).
  { intros i r Hi. apply Hall. apply list_elem_of_In. eapply list_elem_of_lookup_2, Hi. }
  split; [|split; [|split]].
  - intros [|i] row Hi Hz Hnz.
    + rewrite (H0 _ Hi). apply compute_damage_change_first; [reflexivity| |assumption].
      eapply Hnn, Hi.
    + destruct (lookup_lt_is_Some_2 rows i) as [r Hr].
      { apply lookup_lt_Some in Hi. lia. }
      rewrite (HS _ _ _ Hr Hi). apply compute_damage_change_first; [|eapply Hnn, Hi|assumption].
      apply (Hz i r); [lia|assumption].
  - intros i r1 r2 H1 H2.
    assert (Hle : (current_total_damage_to_log r1 <=? current_total_damage_to_log r2)%float = true)
      by (apply (strongly_sorted_lookup total_le rows Hs i (S i)); [lia|assumption..]).
    split; [exact Hle|]. rewrite (HS _ _ _ H1 H2).
    apply compute_damage_change_sub, Hle.
  - exact Hl.
  - intros st f rd st1 row H. eapply process_reading_delta, H.
Qed.

Lemma damage_change_is_difference_witness :
  frame_loop 5 scenario_trillion scenario_hundred_million 24 96 0 initial_state
  = Done (scenario_rows, scenario_final_state)
  /\ (forall i r1 r2, scenario_rows !! i = Some r1 -> scenario_rows !! S i = Some r2 ->
     (current_total_damage_to_log r1 <=? current_total_damage_to_log r2)%float = true
     /\ damage_change r2
        = (current_total_damage_to_log r2 - current_total_damage_to_log r1)%float).
Proof.
  split; [vm_compute; reflexivity|].
  apply (damage_change_is_difference 5 scenario_trillion scenario_hundred_million 24 96 0
           scenario_rows scenario_final_state).
  vm_compute. reflexivity.
Defined.


(** Once the total has overflowed to infinity, the difference of a total
    with itself is not a number. *)
Example compute_damage_change_infinity :
  compute_damage_change infinity infinity = nan.
Proof. reflexivity. Qed.




(** C9.  One image alone.  A frame that has the image of one unit only is
    processed as a frame that has none: the iteration is the one of the
    absent branch, whatever the number read from the image that exists. *)
Theorem single_image_treated_as_absent tm hm st frame :
  (tm !! frame = None /\ hm !! frame <> None)
  \/ (tm !! frame <> None /\ hm !! frame = None) ->
  loop_body tm hm st frame = process_reading st frame None
  /\ loop_body tm hm st frame = loop_body (delete frame tm) (delete frame hm) st frame
  /\ loop_body tm hm st frame =
     Done ({| overall_accumulated_damage := overall_accumulated_damage st;
              last_successful_ocr_value_in_current_phase :=
                last_successful_ocr_value_in_current_phase st;
              reset_offset := reset_offset st;
              last_valid_jo := last_valid_jo st;
              last_valid_uk := last_valid_uk st;
              previous_total_damage_for_diff := overall_accumulated_damage st |},
           {| current_frame_to_process := frame;
              trillion_val_for_excel := last_valid_jo st;
              hundred_million_val_for_excel := last_valid_uk st;
              current_total_damage_to_log := overall_accumulated_damage st;
              damage_change :=
                compute_damage_change (previous_total_damage_for_diff st)
                  (overall_accumulated_damage st) |}).
Proof.
  intros H.
  assert (Hrd : frame_reading tm hm frame = None).
  { unfold frame_reading.
    destruct H as [[-> _]|[_ ->]]; [reflexivity|destruct (tm !! frame); reflexivity]. }
  unfold loop_body, frame_reading. fold (frame_reading tm hm frame).
  rewrite Hrd, !lookup_delete_eq. repeat split; reflexivity.
Qed.

Lemma single_image_treated_as_absent_witness :
  ((delete 72 scenario_trillion : gmap Z N) !! 72 = None
   /\ scenario_hundred_million !! 72 <> None)
  /\ loop_body (delete 72 scenario_trillion) scenario_hundred_million
       scenario_state_at_48 72
     = process_reading scenario_state_at_48 72 None.
Proof.
  assert (H : (delete 72 scenario_trillion : gmap Z N) !! 72 = None
              /\ scenario_hundred_million !! 72 <> None)
    by (split; [vm_compute; reflexivity|vm_compute; discriminate]).
  split; [exact H|].
  apply (single_image_treated_as_absent (delete 72 scenario_trillion)
           scenario_hundred_million scenario_state_at_48 72).
  left. exact H.
Defined.



Lemma sampled_frames_In start interval n f :
  In f (sampled_frames start interval n) <->
  exists k, 0 <= k < Z.of_nat n /\ f = start + k * interval.
Proof.
  unfold sampled_frames. rewrite in_map_iff. split.
  - intros (k & <- & Hk). apply in_seq in Hk. exists (Z.of_nat k). split; [lia|reflexivity].
  - intros (k & Hk & ->). exists (Z.to_nat k).
    split; [rewrite Z2Nat.id by lia; reflexivity|].
    apply in_seq. lia.
Qed.

Lemma sampled_frames_sorted start interval n :
  0 < interval -> StronglySorted Z.lt (sampled_frames start interval n).
Proof.
  intros Hi. revert start. induction n as [|n IH]; intros start.
  - constructor.
  - rewrite sampled_frames_S. constructor; [apply IH|].
    apply List.Forall_forall. intros f Hf.
    apply sampled_frames_In in Hf. destruct Hf as (k & Hk & ->). nia.
Qed.

(** C8.  One row per sampled frame.  When [process_ocr] writes its rows,
    their frame numbers are [start_frame], [start_frame + frame_interval],
    ... in increasing order: every such number that does not exceed the
    largest frame number of the two image sets, each once, and no other. *)
Theorem one_row_per_sampled_frame tm hm start_frame frame_interval fps rows :
  process_ocr tm hm start_frame frame_interval fps = Done rows ->
  exists max_frame_num,
    max_frame_num ∈ dom tm ∪ dom hm
    /\ (forall f, f ∈ dom tm ∪ dom hm -> f <= max_frame_num)
    /\ map current_frame_to_process rows
       = sampled_frames start_frame frame_interval
           (Z.to_nat ((max_frame_num - start_frame) / frame_interval + 1))
    /\ (forall f, In f (map current_frame_to_process rows) <->
          exists k, 0 <= k /\ f = start_frame + k * frame_interval /\ f <= max_frame_num)
    /\ StronglySorted Z.lt (map current_frame_to_process rows).
Proof.
  intros H. apply process_ocr_done in H.
  destruct H as (max & st' & Hs & Hi & Hmax & Hloop).
  apply list_max_spec in Hmax. destruct Hmax as [Hin Hle].
  apply frame_loop_run_readings, run_readings_frames in Hloop.
  rewrite map_map, map_id, loop_frames_sampled in Hloop by lia.
  exists max. split; [apply all_frame_numbers_spec, Hin|].
  split; [intros f Hf; apply Hle, all_frame_numbers_spec, Hf|].
  split; [exact Hloop|]. rewrite Hloop. split; [|apply sampled_frames_sorted, Hi].
  intros f. rewrite sampled_frames_In.
  pose proof (Z.mul_div_le (max - start_frame) frame_interval Hi) as Hd.
  split.
  - intros (k & Hk & ->). exists k. split; [lia|]. split; [reflexivity|]. nia.
  - intros (k & Hk & -> & Hf). exists k. split; [|reflexivity].
    assert (k <= (max - start_frame) / frame_interval)
      by (apply Z.div_le_lower_bound; lia).
    lia.
Qed.

Lemma one_row_per_sampled_frame_witness :
  process_ocr scenario_trillion scenario_hundred_million 0 24 23.84 = Done scenario_rows
  /\ exists max_frame_num,
       max_frame_num ∈ dom scenario_trillion ∪ dom scenario_hundred_million
       /\ map current_frame_to_process scenario_rows
          = sampled_frames 0 24 (Z.to_nat ((max_frame_num - 0) / 24 + 1)).
Proof.
  assert (H : process_ocr scenario_trillion scenario_hundred_million 0 24 23.84
              = Done scenario_rows) by (vm_compute; reflexivity).
  split; [exact H|].
  destruct (one_row_per_sampled_frame _ _ _ _ _ _ H) as (m & H1 & _ & H3 & _).
  exists m. split; assumption.
Defined.

(** Closed statements are settled by running the definitions. *)
Ltac by_evaluation :=
  repeat match goal with |- _ /\ _ => split end; vm_compute; reflexivity.

(** [process_ocr] does not run out of fuel. *)
Lemma process_ocr_terminates tm hm start_frame frame_interval fps :
  process_ocr tm hm start_frame frame_interval fps <> OutOfFuel.
Proof.
  unfold process_ocr, process_ocr_fuel, enough_fuel.
  destruct (Z.ltb_spec start_frame 0); [discriminate|].
  destruct (Z.leb_spec frame_interval 0); [discriminate|]. cbn [orb].
  destruct (fps <=? 0)%float; [discriminate|].
  destruct (list_max (all_frame_numbers tm hm)) as [max|]; [|discriminate].
  pose proof (frame_loop_fuel (Z.to_nat (max - start_frame + 1)) tm hm frame_interval
                max start_frame initial_state H0 (Nat.le_refl _)) as Hf.
  destruct (frame_loop _ tm hm frame_interval max start_frame initial_state)
    as [[rows st']| | | |]; cbn [mbind outcome_bind]; congruence.
Qed.

(** C6.  The concrete scenario.  The totals are 0, 1.2, 2.15, 2.15 and
    3.1 (not 3.25): the last reading, (3,1000), is worth
    3 + 1000/10000 = 3.1.  The fourth frame reads 0.0005, which is not
    below 0.00001, so no reset is detected, and its candidate total is
    below 2.15, so it is rejected. *)
Theorem scenario_totals :
  process_ocr scenario_trillion scenario_hundred_million 0 24 23.84 = Done scenario_rows
  /\ map current_total_damage_to_log scenario_rows = [0; 1.2; 2.15; 2.15; 3.1]%float
  /\ map current_frame_to_process scenario_rows = [0; 24; 48; 72; 96]
  /\ frame_loop 3 scenario_trillion scenario_hundred_million 24 48 0 initial_state
     = Done (firstn 3 scenario_rows, scenario_state_at_48)
  /\ raw_current_damage_from_ocr 0 5 = Done 0.0005%float
  /\ (0.0005 <? SMALL_ABSOLUTE_RESET_THRESHOLD)%float = false
  /\ is_reset_detected scenario_state_at_48 0.0005 = false
  /\ is_rejected (reset_block scenario_state_at_48 0.0005) 0.0005 = true
  /\ raw_current_damage_from_ocr 3 1000 = Done 3.1%float.
Proof. by_evaluation. Qed.

Lemma scenario_totals_counterexample :
  ~ (exists rows,
       process_ocr scenario_trillion scenario_hundred_million 0 24 23.84 = Done rows
       /\ map current_total_damage_to_log rows = [0; 1.2; 2.15; 2.15; 3.25]%float).
Proof.
  intros (rows & H1 & H2).
  assert (H : process_ocr scenario_trillion scenario_hundred_million 0 24 23.84
              = Done scenario_rows) by (vm_compute; reflexivity).
  rewrite H in H1. injection H1 as <-.
  assert (E : (3.1 =? 3.25)%float = true).
  { change 3.1%float
      with (nth 4 (map current_total_damage_to_log scenario_rows) 0%float).
    rewrite H2. reflexivity. }
  vm_compute in E. discriminate E.
Qed.

(** C5.  The synthetic reset.  With the raw values 5.0, 5.2, 0.0001, 0.3 no
    reset is detected on the third frame, because 0.0001 is not below
    0.00001: that frame and the next are rejected, the total stays at the
    5.2 logged at [raw = 5.2] and the offset at 0.  With a third raw
    value of 0 the reset is detected, the offset becomes the 5.2 logged at
    [raw = 5.2], and the total after the 0.3 frame is that offset plus
    0.3. *)
Theorem synthetic_reset :
  (exists rows2,
     frame_loop 2 synthetic_trillion synthetic_hundred_million 24 24 0 initial_state
     = Done (rows2, state_at_5_2)
     /\ map current_total_damage_to_log rows2 = [5; 5.2]%float)
  /\ raw_current_damage_from_ocr 0 1 = Done 0.0001%float
  /\ (0.0001 <? SMALL_ABSOLUTE_RESET_THRESHOLD)%float = false
  /\ is_reset_detected state_at_5_2 0.0001 = false
  /\ (exists rows st',
        frame_loop 4 synthetic_trillion synthetic_hundred_million 24 72 0 initial_state
        = Done (rows, st')
        /\ map current_total_damage_to_log rows = [5; 5.2; 5.2; 5.2]%float
        /\ overall_accumulated_damage st' = 5.2%float
        /\ reset_offset st' = 0%float)
  /\ raw_current_damage_from_ocr 0 0 = Done 0%float
  /\ is_reset_detected state_at_5_2 0 = true
  /\ raw_current_damage_from_ocr 0 3000 = Done 0.3%float
  /\ (exists rows st',
        frame_loop 4 synthetic_trillion synthetic_zero_hundred_million 24 72 0 initial_state
        = Done (rows, st')
        /\ map current_total_damage_to_log rows = [5; 5.2; 5.2; 5.2 + 0.3]%float
        /\ reset_offset st' = 5.2%float
        /\ overall_accumulated_damage st' = (reset_offset st' + 0.3)%float).
Proof.
  split; [eexists; by_evaluation|].
  do 3 (split; [by_evaluation|]).
  split; [do 2 eexists; by_evaluation|].
  do 3 (split; [by_evaluation|]).
  do 2 eexists; by_evaluation.
Qed.

Lemma synthetic_reset_counterexample :
  ~ (exists rows st' raw3,
       frame_loop 4 synthetic_trillion synthetic_hundred_million 24 72 0 initial_state
       = Done (rows, st')
       /\ raw_current_damage_from_ocr 0 1 = Done raw3
       /\ is_reset_detected state_at_5_2 raw3 = true
       /\ overall_accumulated_damage st'
          = (overall_accumulated_damage state_at_5_2 + 0.3)%float).
Proof.
  intros (rows & st' & raw3 & _ & H2 & H3 & _).
  vm_compute in H2. injection H2 as <-.
  vm_compute in H3. discriminate H3.
Qed.

(** * Further properties of the reducer *)

(** A frame on which a reset is detected is not rejected. *)
Lemma reset_not_rejected st raw :
  state_ok st -> nonneg raw ->
  is_reset_detected st raw = true -> is_rejected (reset_block st raw) raw = false.
Proof.
  intros Hok Hn H.
  pose proof (candidate_ge_offset _ raw (reset_block_ok st raw Hok) Hn) as Hc.
  unfold is_rejected. apply PF.leb_ltb_false.
  unfold reset_block in *. rewrite H in *. exact Hc.
Qed.

Lemma state_eta st :
  {| overall_accumulated_damage := overall_accumulated_damage st;
     last_successful_ocr_value_in_current_phase :=
       last_successful_ocr_value_in_current_phase st;
     reset_offset := reset_offset st;
     last_valid_jo := last_valid_jo st;
     last_valid_uk := last_valid_uk st;
     previous_total_damage_for_diff := previous_total_damage_for_diff st |} = st.
Proof. destruct st; reflexivity. Qed.

(** X1.  A present frame whose candidate total is rejected is logged as a
    missing frame is: same row, same state. *)
Theorem rejected_frame_is_absent_frame st frame t h raw :
  reachable st ->
  raw_current_damage_from_ocr t h = Done raw ->
  is_rejected (reset_block st raw) raw = true ->
  process_reading st frame (Some (t, h)) = process_reading st frame None.
Proof.
  intros Hr Hraw Hrej. pose proof (reachable_ok st Hr) as Hok.
  pose proof (raw_current_damage_nonneg t h raw Hraw) as Hn.
  assert (Hreset : is_reset_detected st raw = false).
  { destruct (is_reset_detected st raw) eqn:E; [|reflexivity].
    rewrite (reset_not_rejected st raw Hok Hn E) in Hrej. discriminate. }
  unfold process_reading, present_branch. rewrite Hraw. cbn [mbind outcome_bind].
  unfold monotonic_block. rewrite Hrej.
  unfold reset_block. rewrite Hreset. rewrite state_eta. reflexivity.
Qed.

Lemma rejected_frame_is_absent_frame_witness :
  raw_current_damage_from_ocr 0 5 = Done 0.0005%float
  /\ is_rejected (reset_block scenario_state_at_48 0.0005) 0.0005 = true
  /\ process_reading scenario_state_at_48 72 (Some (0%N, 5%N))
     = process_reading scenario_state_at_48 72 None.
Proof.
  split; [vm_compute; reflexivity|]. split; [vm_compute; reflexivity|].
  apply (rejected_frame_is_absent_frame scenario_state_at_48 72 0%N 5%N 0.0005%float).
  - apply (reachable_step (mk_state 1.2 1.2 0 1 2000 1.2) 48 (Some (2%N, 1500%N))
             scenario_state_at_48 (mk_row 48 2 1500 2.15 0.95));
      [|vm_compute; reflexivity].
    apply (reachable_step initial_state 24 (Some (1%N, 2000%N))
             (mk_state 1.2 1.2 0 1 2000 1.2) (mk_row 24 1 2000 1.2 1.2));
      [apply reachable_initial|vm_compute; reflexivity].
  - vm_compute. reflexivity.
  - vm_compute. reflexivity.
Defined.

(** X2.  [reset_offset] never decreases over an iteration, and it changes
    only on a present frame on which a reset is detected. *)
Theorem reset_offset_only_grows st frame rd st' row :
  reachable st ->
  process_reading st frame rd = Done (st', row) ->
  (reset_offset st <=? reset_offset st')%float = true
  /\ (reset_offset st' = reset_offset st
      \/ exists t h raw,
           rd = Some (t, h) /\ raw_current_damage_from_ocr t h = Done raw
           /\ is_reset_detected st raw = true
           /\ reset_offset st' = overall_accumulated_damage st).
Proof.
  intros Hr. pose proof (reachable_ok st Hr) as Hok.
  destruct Hok as (Ho & Hoff & Hb & Hle & Hp).
  destruct rd as [[t h]|]; unfold process_reading.
  - unfold present_branch.
    destruct (raw_current_damage_from_ocr t h) as [raw| | | |] eqn:Eraw; try discriminate.
    cbn [mbind outcome_bind]. unfold monotonic_block.
    destruct (is_rejected _ raw); cbn; intros [= <- <-]; cbn;
      unfold reset_block; destruct (is_reset_detected st raw) eqn:E; cbn;
      (split; [try assumption; try (apply PF.leb_refl; assumption)|]);
      try (left; reflexivity);
      right; exists t, h, raw; repeat split; assumption || reflexivity.
  - intros [= <- <-]. cbn. split; [apply PF.leb_refl; assumption|left; reflexivity].
Qed.

Lemma reset_offset_only_grows_witness :
  reachable state_at_5_2
  /\ process_reading state_at_5_2 48 (Some (0%N, 0%N))
     = Done (mk_state 5.2 0 5.2 0 0 5.2, mk_row 48 0 0 5.2 0)
  /\ (reset_offset state_at_5_2 <=? reset_offset (mk_state 5.2 0 5.2 0 0 5.2))%float = true.
Proof.
  assert (Hr : reachable state_at_5_2).
  { apply (reachable_step (mk_state 5 5 0 5 0 5) 24 (Some (5%N, 2000%N))
             state_at_5_2 (mk_row 24 5 2000 5.2 (5.2 - 5)));
      [|vm_compute; reflexivity].
    apply (reachable_step initial_state 0 (Some (5%N, 0%N))
             (mk_state 5 5 0 5 0 5) (mk_row 0 5 0 5 5));
      [apply reachable_initial|vm_compute; reflexivity]. }
  assert (Hs : process_reading state_at_5_2 48 (Some (0%N, 0%N))
               = Done (mk_state 5.2 0 5.2 0 0 5.2, mk_row 48 0 0 5.2 0))
    by (vm_compute; reflexivity).
  split; [exact Hr|]. split; [exact Hs|].
  apply (reset_offset_only_grows state_at_5_2 48 (Some (0%N, 0%N))
           (mk_state 5.2 0 5.2 0 0 5.2) (mk_row 48 0 0 5.2 0) Hr Hs).
Defined.

(** X3.  No emitted total is negative or a NaN. *)
Theorem totals_are_nonnegative fuel tm hm interval max frame st rows st' :
  reachable st ->
  frame_loop fuel tm hm interval max frame st = Done (rows, st') ->
  forall row, In row rows -> (0 <=? current_total_damage_to_log row)%float = true.
Proof.
  intros Hr Hloop row Hin. apply frame_loop_run_readings in Hloop.
  pose proof (reachable_ok st Hr) as Hok.
  destruct (run_readings_ok _ _ _ _ Hok Hloop) as (_ & _ & Hall & _).
  rewrite List.Forall_forall in Hall. destruct (Hall row Hin) as [H _].
  eapply PF.leb_trans; [|exact H]. apply Hok.
Qed.

Lemma totals_are_nonnegative_witness :
  reachable initial_state
  /\ frame_loop 5 scenario_trillion scenario_hundred_million 24 96 0 initial_state
     = Done (scenario_rows, scenario_final_state)
  /\ forall row, In row scenario_rows ->
       (0 <=? current_total_damage_to_log row)%float = true.
Proof.
  split; [apply reachable_initial|]. split; [vm_compute; reflexivity|].
  apply (totals_are_nonnegative 5 scenario_trillion scenario_hundred_million 24 96 0
           initial_state scenario_rows scenario_final_state).
  - apply reachable_initial.
  - vm_compute. reflexivity.
Defined.

(** ** The logged digits and the logged total *)

Lemma SFadd_signed x y :
  sf_signed false x -> sf_signed false y -> sf_signed false (SFadd prec emax x y).
Proof.
  destruct x as [sx|sx| |sx mx ex], y as [sy|sy| |sy my ey]; simpl;
    try tauto; try (intros -> ->; reflexivity).
  intros -> ->. unfold cond_Zopp. rewrite <- Pos2Z.inj_add.
  apply SF.binary_round_signed.
Qed.

Lemma SFdiv_finite_signed x my ey :
  sf_signed false x -> sf_signed false (SFdiv prec emax x (S754_finite false my ey)).
Proof.
  destruct x as [sx|sx| |sx mx ex]; simpl; try tauto; try (intros ->; reflexivity).
  intros ->.
  destruct (SFdiv_core_binary prec emax (Zpos mx) ex (Zpos my) ey) as [[mz ez] lz] eqn:E.
  apply SF.binary_round_aux_signed.
  unfold SFdiv_core_binary in E.
  set (s := ex - ey - _) in E.
  set (m' := match s with Z0 => Zpos mx | Zpos _ => Z.shiftl (Zpos mx) s | Zneg _ => 0 end) in E.
  assert (Hm' : 0 <= m').
  { subst m'. destruct s; try lia. apply Z.shiftl_nonneg. lia. }
  pose proof (Z.div_pos m' (Zpos my) Hm' eq_refl) as Hq.
  unfold Z.div in Hq. destruct (Z.div_eucl m' (Zpos my)) as [q r].
  inversion E; subst. exact Hq.
Qed.

Lemma float_of_int_signed n f :
  float_of_int n = Done f -> sf_signed false (Prim2SF f).
Proof.
  unfold float_of_int.
  pose proof (SF.binary_normalize_signed (Z.of_N n) 0 (N2Z.is_nonneg n)) as H.
  destruct (binary_normalize prec emax (Z.of_N n) 0 false) as [s|s| |s m e] eqn:E;
    intros Heq; try discriminate Heq; injection Heq as Heq; rewrite <- Heq.
  - exact (PF.SF2Prim_signed (S754_zero s) H).
  - exact (PF.SF2Prim_signed S754_nan H).
  - exact (PF.SF2Prim_signed (S754_finite s m e) H).
Qed.

(** The raw value of a reading has its sign bit clear. *)
Lemma raw_current_damage_signed t h raw :
  raw_current_damage_from_ocr t h = Done raw -> sf_signed false (Prim2SF raw).
Proof.
  unfold raw_current_damage_from_ocr.
  destruct (float_of_int h) as [fh| | | |] eqn:Eh; try discriminate.
  destruct (float_of_int t) as [ft| | | |] eqn:Et; try discriminate.
  intros [= <-]. rewrite FloatAxioms.add_spec, FloatAxioms.div_spec.
  change (Prim2SF 10000) with (S754_finite false 5497558138880000 (-39)).
  apply SFadd_signed; [|apply SFdiv_finite_signed]; eapply float_of_int_signed; eassumption.
Qed.

Lemma add_zero_r x : sf_signed false (Prim2SF x) -> (x + 0)%float = x.
Proof.
  intros H. apply Prim2SF_inj. rewrite FloatAxioms.add_spec.
  change (Prim2SF 0) with (S754_zero false).
  destruct (Prim2SF x) as [s|s| |s m e]; simpl in H; try contradiction; subst; reflexivity.
Qed.

Lemma initial_state_logged : state_logged initial_state.
Proof. exists 0%float. split; vm_compute; reflexivity. Qed.

Lemma process_reading_logged st frame rd st' row :
  state_ok st -> state_logged st ->
  process_reading st frame rd = Done (st', row) ->
  state_logged st'
  /\ trillion_val_for_excel row = last_valid_jo st'
  /\ hundred_million_val_for_excel row = last_valid_uk st'.
Proof.
  intros Hok (raw0 & Hraw0 & Hov). destruct rd as [[t h]|]; unfold process_reading.
  - unfold present_branch.
    destruct (raw_current_damage_from_ocr t h) as [raw| | | |] eqn:Eraw; try discriminate.
    cbn [mbind outcome_bind].
    pose proof (raw_current_damage_nonneg t h raw Eraw) as Hn.
    pose proof (reset_not_rejected st raw Hok Hn) as Hnr.
    unfold monotonic_block.
    destruct (is_rejected (reset_block st raw) raw) eqn:Hrej; cbn; intros [= <- <-]; cbn.
    + assert (Hreset : is_reset_detected st raw = false).
      { destruct (is_reset_detected st raw); [|reflexivity].
        specialize (Hnr eq_refl). discriminate. }
      unfold reset_block. rewrite Hreset. repeat split; try reflexivity.
      exists raw0. split; assumption.
    + repeat split; try reflexivity. exists raw. split; [exact Eraw|reflexivity].
  - intros [= <- <-]. cbn. repeat split; try reflexivity. exists raw0. split; assumption.
Qed.

Lemma reachable_logged st : reachable st -> state_logged st.
Proof.
  induction 1 as [|st frame rd st' row Hr IH Hstep].
  - apply initial_state_logged.
  - eapply process_reading_logged; [apply reachable_ok, Hr|exact IH|exact Hstep].
Qed.

(** X4.  In every row the total is the raw value of the two digit columns
    of that row plus the current [reset_offset]; as long as the offset is
    0 the total is that raw value itself. *)
Theorem total_matches_logged_digits st frame rd st' row :
  reachable st ->
  process_reading st frame rd = Done (st', row) ->
  exists raw,
    raw_current_damage_from_ocr (trillion_val_for_excel row)
      (hundred_million_val_for_excel row) = Done raw
    /\ current_total_damage_to_log row = (raw + reset_offset st')%float
    /\ (reset_offset st' = 0%float -> current_total_damage_to_log row = raw).
Proof.
  intros Hr Hstep. pose proof (reachable_ok st Hr) as Hok.
  destruct (process_reading_logged _ _ _ _ _ Hok (reachable_logged st Hr) Hstep)
    as ((raw & Hraw & Hov) & Hjo & Huk).
  destruct (process_reading_ok _ _ _ _ _ Hok Hstep) as (_ & _ & Htot).
  exists raw. rewrite Hjo, Huk, Htot. split; [exact Hraw|]. split; [exact Hov|].
  intros H0. rewrite Hov, H0. apply add_zero_r. eapply raw_current_damage_signed, Hraw.
Qed.

Lemma total_matches_logged_digits_witness :
  reachable initial_state
  /\ process_reading initial_state 24 (Some (1%N, 2000%N))
     = Done (mk_state 1.2 1.2 0 1 2000 1.2, mk_row 24 1 2000 1.2 1.2)
  /\ exists raw,
       raw_current_damage_from_ocr 1 2000 = Done raw
       /\ 1.2%float = (raw + 0)%float
       /\ (0%float = 0%float -> 1.2%float = raw).
Proof.
  assert (Hs : process_reading initial_state 24 (Some (1%N, 2000%N))
               = Done (mk_state 1.2 1.2 0 1 2000 1.2, mk_row 24 1 2000 1.2 1.2))
    by (vm_compute; reflexivity).
  split; [apply reachable_initial|]. split; [exact Hs|].
  exact (total_matches_logged_digits initial_state 24 (Some (1%N, 2000%N))
           (mk_state 1.2 1.2 0 1 2000 1.2) (mk_row 24 1 2000 1.2 1.2)
           reachable_initial Hs).
Defined.

(** ** The sign of a difference *)

(** The mantissa of a valid float has at most 53 binary digits, and
    exactly 53 above the least exponent. *)
Lemma valid_mantissa m e :
  bounded prec emax m e = true ->
  Zpos m < 2 ^ 53 /\ (-1074 < e -> 2 ^ 52 <= Zpos m).
Proof.
  unfold bounded, canonical_mantissa. intros H. apply andb_prop in H.
  destruct H as [H _]. apply Z.eqb_eq in H. rewrite SF.fexp_eq in H.
  change (Zpos (digits2_pos m)) with (Zdigits2 (Zpos m)) in H.
  rewrite SF.Zdigits2_log2 in H by lia.
  assert (Hpos : 0 < Zpos m) by lia.
  destruct (Z.log2_spec (Zpos m) Hpos) as [Hlo Hhi].
  split.
  - eapply Z.lt_le_trans; [exact Hhi|]. apply Z.pow_le_mono_r; lia.
  - intros He. etransitivity; [|exact Hlo]. apply Z.pow_le_mono_r; lia.
Qed.

Lemma SFsub_nonneg x y :
  valid_binary x = true -> valid_binary y = true ->
  sf_nonneg y = true -> SFleb y x = true ->
  x <> S754_infinity false ->
  sf_nonneg (SFsub prec emax x y) = true.
Proof.
  intros Hvx Hvy Hy Hle Hfin.
  destruct x as [sx|[]| |[] mx ex], y as [sy|[]| |[] my ey];
    try discriminate Hy; try discriminate Hle; try congruence;
    try (destruct sx; try destruct sy; reflexivity); try reflexivity.
  apply SF.sf_signed_nonneg. unfold SFsub, cond_Zopp.
  apply SF.binary_normalize_signed.
  simpl in Hvx, Hvy.
  destruct (valid_mantissa mx ex Hvx) as [Hx1 Hx2].
  destruct (valid_mantissa my ey Hvy) as [Hy1 Hy2].
  assert (Hex : -1074 <= ex).
  { unfold bounded, canonical_mantissa in Hvx. apply andb_prop in Hvx.
    destruct Hvx as [H _]. apply Z.eqb_eq in H. rewrite SF.fexp_eq in H. lia. }
  assert (Hey : -1074 <= ey).
  { unfold bounded, canonical_mantissa in Hvy. apply andb_prop in Hvy.
    destruct Hvy as [H _]. apply Z.eqb_eq in H. rewrite SF.fexp_eq in H. lia. }
  rewrite !SF.shl_align_fst by lia.
  unfold SFleb, SFcompare in Hle.
  destruct (Z.compare_spec ey ex) as [E|E|E]; try discriminate Hle.
  - subst ey. rewrite Z.min_id, Z.sub_diag, Z.pow_0_r.
    assert (Zpos my <= Zpos mx); [|lia].
    change (Zpos my <= Zpos mx) with (my <= mx)%positive.
    unfold Pos.le. change (PosDef.Pos.compare_cont Eq my mx) with (my ?= mx)%positive in Hle.
    destruct (my ?= mx)%positive; congruence.
  - rewrite Z.min_r by lia. rewrite Z.sub_diag, Z.pow_0_r.
    assert (H2 : 2 <= 2 ^ (ex - ey)).
    { change 2 with (2 ^ 1) at 1. apply Z.pow_le_mono_r; lia. }
    specialize (Hx2 ltac:(lia)). nia.
Qed.

Lemma sub_nonneg previous total :
  nonneg previous -> (previous <=? total)%float = true -> is_finite total = true ->
  nonneg (total - previous).
Proof.
  intros Hp Hle Hfin. apply PF.nonneg_spec. rewrite FloatAxioms.sub_spec.
  apply SFsub_nonneg; try apply Prim2SF_valid.
  - apply PF.nonneg_spec, Hp.
  - rewrite <- FloatAxioms.leb_spec. exact Hle.
  - intros E. revert Hfin. unfold is_finite, is_nan, is_infinity.
    rewrite !FloatAxioms.eqb_spec, FloatAxioms.abs_spec, E. discriminate.
Qed.

Lemma compute_damage_change_nonneg previous total :
  nonneg previous -> is_finite total = true ->
  nonneg (compute_damage_change previous total).
Proof.
  intros Hp Hfin. unfold compute_damage_change.
  destruct ((previous =? 0) && (0 <? total))%float eqn:E1.
  - apply andb_prop in E1. destruct E1 as [_ Hlt]. unfold nonneg.
    revert Hlt. rewrite FloatAxioms.ltb_spec, FloatAxioms.leb_spec. unfold SFltb, SFleb.
    destruct (SFcompare _ _) as [[]|]; congruence.
  - destruct (previous <=? total)%float eqn:E2; [|apply PF.nonneg_0].
    apply sub_nonneg; assumption.
Qed.

(** What holds of every row of an iteration holds of the rows of the loop. *)
Lemma frame_loop_rows (P : row_data -> Prop) :
  (forall st frame rd st' row,
     state_ok st -> process_reading st frame rd = Done (st', row) -> P row) ->
  forall fuel tm hm interval max frame st rows st',
    state_ok st ->
    frame_loop fuel tm hm interval max frame st = Done (rows, st') ->
    Forall P rows.
Proof.
  intros HP. induction fuel as [|fuel IH]; intros tm hm interval max frame st rows st' Hok;
    simpl; destruct (frame <=? max); try discriminate;
    try (intros [= <- <-]; constructor).
  unfold loop_body.
  destruct (process_reading st frame (frame_reading tm hm frame)) as [[st1 row]| | | |] eqn:E1;
    try discriminate. cbn [mbind outcome_bind].
  destruct (frame_loop fuel tm hm interval max (frame + interval) st1)
    as [[rows1 st2]| | | |] eqn:E2; try discriminate. cbn [mbind outcome_bind].
  intros [= <- <-]. constructor.
  - exact (HP _ _ _ _ _ Hok E1).
  - apply (IH _ _ _ _ _ _ _ _ (proj1 (process_reading_ok _ _ _ _ _ Hok E1)) E2).
Qed.

(** X5.  No row carries a negative damage change: in the rows of the loop,
    from any state a run can be in, the damage change of a row whose total
    is finite is a float that is [>= 0].  (On a total that is infinite the
    difference of two infinities is not a number.) *)
Theorem damage_change_never_negative fuel tm hm interval max frame st rows st' :
  reachable st ->
  frame_loop fuel tm hm interval max frame st = Done (rows, st') ->
  forall row, In row rows ->
    is_finite (current_total_damage_to_log row) = true ->
    (0 <=? damage_change row)%float = true.
Proof.
  intros Hr Hloop.
  assert (H : Forall (fun row => is_finite (current_total_damage_to_log row) = true ->
                                 (0 <=? damage_change row)%float = true) rows).
  { apply (fun HP => frame_loop_rows _ HP _ _ _ _ _ _ _ _ _ (reachable_ok st Hr) Hloop).
    intros st0 frame0 rd st1 row Hok Hstep Hfin.
    destruct (process_reading_delta _ _ _ _ _ Hstep) as [-> _].
    apply compute_damage_change_nonneg; [|exact Hfin].
    destruct Hok as (Ho & _ & _ & _ & ->). exact Ho. }
  rewrite List.Forall_forall in H. exact H.
Qed.

Lemma damage_change_never_negative_witness :
  reachable initial_state
  /\ frame_loop 5 scenario_trillion scenario_hundred_million 24 96 0 initial_state
     = Done (scenario_rows, scenario_final_state)
  /\ Forall (fun row => is_finite (current_total_damage_to_log row) = true) scenario_rows
  /\ Forall (fun row => (0 <=? damage_change row)%float = true) scenario_rows.
Proof.
  assert (Hloop : frame_loop 5 scenario_trillion scenario_hundred_million 24 96 0
                    initial_state = Done (scenario_rows, scenario_final_state))
    by (vm_compute; reflexivity).
  assert (Hfin : Forall (fun row => is_finite (current_total_damage_to_log row) = true)
                   scenario_rows) by (repeat constructor).
  split; [apply reachable_initial|]. split; [exact Hloop|]. split; [exact Hfin|].
  rewrite List.Forall_forall in Hfin. apply List.Forall_forall. intros row Hin.
  exact (damage_change_never_negative 5 scenario_trillion scenario_hundred_million 24 96 0
           initial_state scenario_rows scenario_final_state reachable_initial Hloop
           row Hin (Hfin row Hin)).
Defined.

(** ** Lower bounds of rounded values *)

Lemma Zdigits2_div_pow2 m n :
  0 < m -> 0 <= n < Zdigits2 m -> Zdigits2 (m / 2 ^ n) = Zdigits2 m - n /\ 0 < m / 2 ^ n.
Proof.
  intros Hm Hn. rewrite (SF.Zdigits2_log2 m Hm) in *.
  assert (Hq : 0 < m / 2 ^ n).
  { pose proof (SF.div_pow2_pos n m Hm ltac:(lia)). lia. }
  split; [|exact Hq].
  rewrite SF.Zdigits2_log2 by exact Hq.
  rewrite <- Z.shiftr_div_pow2, Z.log2_shiftr by lia. lia.
Qed.

Lemma Zdigits2_mono m m' : 0 < m -> m <= m' -> Zdigits2 m <= Zdigits2 m'.
Proof.
  intros Hm Hle. rewrite !SF.Zdigits2_log2 by lia.
  pose proof (Z.log2_le_mono m m' Hle). lia.
Qed.

Lemma Zdigits2_mul_pow2 m n : 0 < m -> 0 <= n -> Zdigits2 (m * 2 ^ n) = Zdigits2 m + n.
Proof.
  intros Hm Hn. assert (0 < 2 ^ n) by (apply Z.pow_pos_nonneg; lia).
  rewrite !SF.Zdigits2_log2 by nia. rewrite Z.log2_mul_pow2 by lia. lia.
Qed.

Lemma rounded_above k m e : 0 < m -> k <= Zdigits2 m + e -> sf_above k (rounded false m e).
Proof.
  intros Hm Hk. unfold rounded. destruct m as [|p|p]; try lia.
  destruct (e <=? emax - prec); [exact Hk|exact I].
Qed.

(** Rounding keeps a positive value at least as large as the power of 2
    below it, when that power is not below the least positive float. *)
Lemma binary_round_aux_above k m e l :
  0 < m -> k <= Zdigits2 m + e -> -1073 <= Zdigits2 m + e ->
  sf_above k (binary_round_aux prec emax false m e l).
Proof.
  intros Hm Hk Hmin.
  destruct (SF.binary_round_aux_spec false m e l ltac:(lia)) as (m' & Hm' & Heq).
  cbv zeta in Heq. rewrite Heq. clear Heq. rewrite !SF.fexp_eq in *.
  set (n1 := Z.max 0 (Z.max (Zdigits2 m + e - 53) (-1074) - e)) in *.
  assert (Hd : 1 <= Zdigits2 m) by (rewrite SF.Zdigits2_log2 by lia; pose proof (Z.log2_nonneg m); lia).
  assert (Hn1 : 0 <= n1 < Zdigits2 m) by lia.
  destruct (Zdigits2_div_pow2 m n1 Hm Hn1) as [Hd1 Hq1].
  assert (Hm'pos : 0 < m') by lia.
  assert (Hd' : Zdigits2 m - n1 <= Zdigits2 m').
  { rewrite <- Hd1. apply Zdigits2_mono; lia. }
  set (n2 := Z.max 0 (Z.max (Zdigits2 m' + (e + n1) - 53) (-1074) - (e + n1))) in *.
  assert (Hn2 : 0 <= n2 < Zdigits2 m') by lia.
  destruct (Zdigits2_div_pow2 m' n2 Hm'pos Hn2) as [Hd2 Hq2].
  apply rounded_above; [exact Hq2|]. rewrite Hd2. lia.
Qed.

Lemma binary_round_above k m e :
  k <= Zdigits2 (Zpos m) + e -> -1073 <= Zdigits2 (Zpos m) + e ->
  sf_above k (binary_round prec emax false m e).
Proof.
  intros Hk Hmin. unfold binary_round.
  destruct (shl_align_spec m e (fexp prec emax (Zpos (digits2_pos m) + e))) as [He Hmz].
  destruct (shl_align m e (fexp prec emax (Zpos (digits2_pos m) + e))) as [mz ez].
  cbn [fst snd] in He, Hmz.
  assert (Hdz : Zdigits2 (Zpos mz) + ez = Zdigits2 (Zpos m) + e).
  { rewrite Hmz, Zdigits2_mul_pow2 by lia. lia. }
  apply binary_round_aux_above; lia.
Qed.

(** The mantissa a rounding ends with has at most 54 binary digits. *)
Lemma binary_round_aux_mantissa s m e l s' m' e' :
  0 < m -> binary_round_aux prec emax s m e l = S754_finite s' m' e' -> Zpos m' <= 2 ^ 53.
Proof.
  intros Hm. destruct (SF.binary_round_aux_spec s m e l ltac:(lia)) as (m1 & Hm1 & Heq).
  cbv zeta in Heq. rewrite Heq. clear Heq. rewrite !SF.fexp_eq in *.
  set (n1 := Z.max 0 (Z.max (Zdigits2 m + e - 53) (-1074) - e)) in *.
  set (n2 := Z.max 0 _).
  assert (H1 : m / 2 ^ n1 < 2 ^ 53).
  { apply Z.div_lt_upper_bound; [apply Z.pow_pos_nonneg; lia|].
    rewrite <- Z.pow_add_r by lia.
    destruct (Z.log2_spec m Hm) as [_ Hhi].
    eapply Z.lt_le_trans; [exact Hhi|]. apply Z.pow_le_mono_r; [lia|].
    pose proof (SF.Zdigits2_log2 m Hm) as Hd. unfold n1. lia. }
  assert (H2 : m1 / 2 ^ n2 <= m1).
  { apply Z.div_le_upper_bound; [apply Z.pow_pos_nonneg; lia|].
    assert (1 <= 2 ^ n2) by (apply (Z.pow_le_mono_r 2 0 n2); lia).
    assert (0 <= m / 2 ^ n1) by (apply Z.div_pos; [lia|apply Z.pow_pos_nonneg; lia]).
    nia. }
  unfold rounded. destruct (m1 / 2 ^ n2) as [|p|p] eqn:Ep; try discriminate.
  destruct (e + n1 + n2 <=? emax - prec); [|discriminate].
  intros [= _ <- _]. lia.
Qed.

Lemma binary_round_mantissa s m e s' m' e' :
  binary_round prec emax s m e = S754_finite s' m' e' -> Zpos m' <= 2 ^ 53.
Proof.
  unfold binary_round.
  destruct (shl_align m e (fexp prec emax (Zpos (digits2_pos m) + e))) as [mz ez].
  apply binary_round_aux_mantissa. lia.
Qed.

(** A valid float above [2 ^ (k - 1)] compares so. *)
Lemma valid_above_leb k s :
  sf_above k s -> valid_binary s = true -> -1021 <= k ->
  SFleb (S754_finite false 4503599627370496 (k - 53)) s = true.
Proof.
  destruct s as [sz|si| |sf m e]; try contradiction.
  - destruct si; [contradiction|]. intros _ _ _. reflexivity.
  - destruct sf; [contradiction|].
    cbn [sf_above SpecFloat.valid_binary]. intros Hk Hv Hmin.
    unfold bounded, canonical_mantissa in Hv. apply andb_prop in Hv. destruct Hv as [Hc _].
    apply Z.eqb_eq in Hc. rewrite SF.fexp_eq in Hc.
    change (Zpos (digits2_pos m)) with (Zdigits2 (Zpos m)) in Hc.
    unfold SFleb, SFcompare.
    destruct (Z.compare_spec (k - 53) e) as [E|E|E]; [|reflexivity|lia].
    rewrite Pos.compare_cont_spec. cbn [Pos.switch_Eq].
    assert (Hm : Zpos 4503599627370496 <= Zpos m).
    { apply (SF.pow2_le_log2 52); [lia|]. rewrite SF.Zdigits2_log2 in Hk by lia. lia. }
    destruct (Pos.compare_spec 4503599627370496 m) as [C|C|C]; try reflexivity.
    exfalso. apply Pos2Z.pos_lt_pos in C. lia.
Qed.

Lemma sf_above_weaken k k' s : k' <= k -> sf_above k s -> sf_above k' s.
Proof. destruct s as [[]|[]| |[] m e]; simpl; try tauto. lia. Qed.

Lemma sf_above_signed k s : sf_above k s -> sf_signed false s.
Proof. destruct s as [[]|[]| |[] m e]; simpl; tauto. Qed.

Lemma sf_above_positive k s : sf_above k s -> SFltb (S754_zero false) s = true.
Proof. destruct s as [[]|[]| |[] m e]; simpl; try tauto; reflexivity. Qed.

(** The float [SF2Prim] makes of a rounded value is as large. *)
Lemma SF2Prim_above k s :
  sf_above k s -> -1073 <= k ->
  match s with S754_finite _ m _ => Zpos m <= 2 ^ 53 | _ => True end ->
  sf_above k (Prim2SF (SF2Prim s)).
Proof.
  destruct s as [[]|[]| |[] m e]; try contradiction; [intros; exact I|].
  cbn [sf_above]. intros Hk Hmin Hm.
  cbv beta iota zeta delta [SF2Prim].
  rewrite Z_ldexp_spec, of_uint63_spec, Uint63.of_Z_spec.
  rewrite Z.mod_small
    by (split; [lia|]; eapply Z.le_lt_trans; [exact Hm|reflexivity]).
  cbn [binary_normalize].
  assert (Hd : 1 <= Zdigits2 (Zpos m)).
  { rewrite SF.Zdigits2_log2 by lia. pose proof (Z.log2_nonneg (Zpos m)). lia. }
  pose proof (binary_round_above (Zdigits2 (Zpos m)) m 0 ltac:(lia) ltac:(lia)) as H2.
  destruct (binary_round prec emax false m 0) as [[]|[]| |[] m2 e2];
    try contradiction; [exact I|].
  cbn [sf_above] in H2. cbn [SFldexp].
  apply binary_round_above; lia.
Qed.

(** The float of a positive integer is at least 1. *)
Lemma float_of_int_above n f :
  (0 < n)%N -> float_of_int n = Done f -> sf_above 1 (Prim2SF f).
Proof.
  intros Hn. unfold float_of_int. destruct n as [|p]; [lia|]. cbn [Z.of_N binary_normalize].
  assert (Hd : 1 <= Zdigits2 (Zpos p)).
  { rewrite SF.Zdigits2_log2 by lia. pose proof (Z.log2_nonneg (Zpos p)). lia. }
  pose proof (binary_round_above 1 p 0 ltac:(lia) ltac:(lia)) as H.
  pose proof (binary_round_mantissa false p 0) as Hm.
  destruct (binary_round prec emax false p 0) as [s|s| |s m e];
    try contradiction; try discriminate.
  intros [= <-]. apply (SF2Prim_above 1 (S754_finite s m e)); [exact H|lia|].
  exact (Hm s m e eq_refl).
Qed.

(** A float that is at least 1, divided by 10000.0, is at least
    [2 ^ -14]. *)
Lemma SFdiv_10000_above x :
  valid_binary x = true -> sf_above 1 x ->
  sf_above (-13) (SFdiv prec emax x (S754_finite false 5497558138880000 (-39))).
Proof.
  destruct x as [[]|[]| |[] mx ex]; try contradiction; [intros; exact I|].
  cbn [sf_above SpecFloat.valid_binary]. intros Hv Hk.
  unfold bounded, canonical_mantissa in Hv. apply andb_prop in Hv. destruct Hv as [Hc _].
  apply Z.eqb_eq in Hc. rewrite SF.fexp_eq in Hc.
  change (Zpos (digits2_pos mx)) with (Zdigits2 (Zpos mx)) in Hc.
  assert (Hd : Zdigits2 (Zpos mx) = 53) by lia.
  cbn [SFdiv xorb]. unfold SFdiv_core_binary.
  change (Zdigits2 (Zpos 5497558138880000)) with 53.
  rewrite Hd, SF.fexp_eq.
  replace (Z.min (Z.max (53 + ex - (53 + -39) - 53) (-1074)) (ex - -39)) with (ex - 14) by lia.
  replace (ex - -39 - (ex - 14)) with 53 by lia.
  rewrite Z.shiftl_mul_pow2 by lia.
  pose proof (Z.div_eucl_eq (Zpos mx * 2 ^ 53) (Zpos 5497558138880000) ltac:(lia)) as Hdiv.
  pose proof (Z.mod_pos_bound (Zpos mx * 2 ^ 53) (Zpos 5497558138880000) eq_refl) as Hr.
  unfold Z.modulo in Hr.
  destruct (Z.div_eucl (Zpos mx * 2 ^ 53) (Zpos 5497558138880000)) as [q r].
  assert (Hmx : 2 ^ 52 <= Zpos mx).
  { apply SF.pow2_le_log2; [lia|]. rewrite SF.Zdigits2_log2 in Hd by lia. lia. }
  assert (Hq : 2 ^ 52 <= q) by lia.
  assert (Hdq : 53 <= Zdigits2 q).
  { change 53 with (Zdigits2 (2 ^ 52)). apply Zdigits2_mono; lia. }
  apply binary_round_aux_above; lia.
Qed.

(** Adding a float that is not negative keeps a lower bound. *)
Lemma SFadd_above k x y :
  sf_above k x -> sf_signed false y -> -1073 <= k -> sf_above k (SFadd prec emax x y).
Proof.
  destruct x as [[]|[]| |[] mx ex]; try contradiction;
    destruct y as [sy|sy| |sy my ey]; cbn [sf_signed]; try contradiction;
    intros Hk Hs Hmin; subst; try exact I; try exact Hk.
  cbn [sf_above] in Hk. cbn [SFadd cond_Zopp]. rewrite <- Pos2Z.inj_add.
  cbn [binary_normalize].
  set (ez := Z.min ex ey).
  pose proof (SF.shl_align_fst mx ex ez ltac:(lia)) as Hx.
  assert (Hdx : Zdigits2 (Zpos mx) + (ex - ez)
                <= Zdigits2 (Zpos (fst (shl_align mx ex ez) + fst (shl_align my ey ez)))).
  { rewrite <- Zdigits2_mul_pow2 by lia. apply Zdigits2_mono.
    - assert (0 < 2 ^ (ex - ez)) by (apply Z.pow_pos_nonneg; lia). nia.
    - rewrite Pos2Z.inj_add, Hx. lia. }
  apply binary_round_above; lia.
Qed.

Lemma SFadd_zero_above k y :
  sf_above k y -> sf_above k (SFadd prec emax (S754_zero false) y).
Proof. destruct y as [[]|[]| |[] my ey]; simpl; tauto. Qed.

(** Multiplying by 0.01 a float that is at least [2 ^ -14] does not give
    0. *)
Lemma SFmul_drop_above x :
  sf_above (-13) x ->
  sf_above (-20) (SFmul prec emax x (S754_finite false 5764607523034235 (-59))).
Proof.
  destruct x as [[]|[]| |[] mx ex]; try contradiction; [intros; exact I|].
  cbn [sf_above SFmul xorb]. intros Hk.
  assert (Hd : Zdigits2 (Zpos mx) + 52 <= Zdigits2 (Zpos (mx * 5764607523034235))).
  { rewrite !SF.Zdigits2_log2 by lia. rewrite Pos2Z.inj_mul.
    pose proof (Z.log2_mul_below (Zpos mx) (Zpos 5764607523034235) eq_refl eq_refl) as H.
    change (Z.log2 (Zpos 5764607523034235)) with 52 in H. lia. }
  apply binary_round_aux_above; lia.
Qed.

(** * Resets and readings *)

Lemma raw_zero_reading : raw_current_damage_from_ocr 0 0 = Done 0%float.
Proof. vm_compute. reflexivity. Qed.

(** A reading that is not (0, 0) is worth at least [2 ^ -14]. *)
Lemma raw_above t h raw :
  raw_current_damage_from_ocr t h = Done raw -> t <> 0%N \/ h <> 0%N ->
  sf_above (-13) (Prim2SF raw).
Proof.
  unfold raw_current_damage_from_ocr.
  destruct (float_of_int h) as [fh| | | |] eqn:Eh; try discriminate.
  destruct (float_of_int t) as [ft| | | |] eqn:Et; try discriminate.
  cbn [mbind outcome_bind]. intros [= <-] Hth.
  rewrite FloatAxioms.add_spec, FloatAxioms.div_spec.
  change (Prim2SF 10000) with (S754_finite false 5497558138880000 (-39)).
  destruct (N.eq_dec t 0%N) as [->|Ht].
  - assert (Hh : (0 < h)%N) by (destruct Hth; [congruence|lia]).
    assert (E0 : ft = 0%float) by (vm_compute in Et; congruence). subst ft.
    change (Prim2SF 0) with (S754_zero false).
    apply SFadd_zero_above, SFdiv_10000_above; [apply Prim2SF_valid|].
    exact (float_of_int_above h fh Hh Eh).
  - apply SFadd_above; [| |lia].
    + apply (sf_above_weaken 1); [lia|]. apply (float_of_int_above t ft); [lia|exact Et].
    + apply SFdiv_finite_signed. exact (float_of_int_signed h fh Eh).
Qed.

Lemma above_not_small raw :
  sf_above (-13) (Prim2SF raw) -> (raw <? SMALL_ABSOLUTE_RESET_THRESHOLD)%float = false.
Proof.
  intros H. rewrite FloatAxioms.ltb_spec. apply SF.SFleb_ltb_false.
  apply (SF.SFleb_trans _ (S754_finite false 4503599627370496 (-13 - 53))).
  - reflexivity.
  - apply valid_above_leb; [exact H|apply Prim2SF_valid|lia].
Qed.

Lemma above_positive x : sf_above (-13) (Prim2SF x) -> (0 <? x)%float = true.
Proof. intros H. rewrite FloatAxioms.ltb_spec. exact (sf_above_positive _ _ H). Qed.

Lemma drop_factor_positive x :
  sf_above (-13) (Prim2SF x) -> (0 <? x * RESET_DROP_FACTOR)%float = true.
Proof.
  intros H. rewrite FloatAxioms.ltb_spec, FloatAxioms.mul_spec.
  change (Prim2SF RESET_DROP_FACTOR) with (S754_finite false 5764607523034235 (-59)).
  exact (sf_above_positive _ _ (SFmul_drop_above _ H)).
Qed.

Lemma initial_phase_value_ok : phase_value_ok initial_state.
Proof. left. reflexivity. Qed.

Lemma process_reading_phase_value st frame rd st' row :
  phase_value_ok st -> process_reading st frame rd = Done (st', row) -> phase_value_ok st'.
Proof.
  intros Hok. destruct rd as [[t h]|]; unfold process_reading.
  - unfold present_branch.
    destruct (raw_current_damage_from_ocr t h) as [raw| | | |] eqn:Eraw; try discriminate.
    cbn [mbind outcome_bind].
    assert (Hreset : phase_value_ok (reset_block st raw)).
    { unfold reset_block. destruct (is_reset_detected st raw); [left; reflexivity|exact Hok]. }
    unfold monotonic_block. destruct (is_rejected (reset_block st raw) raw); cbn;
      intros [= <- <-]; unfold phase_value_ok; cbn; [exact Hreset|].
    destruct (updates_phase_value (reset_block st raw) (is_reset_detected st raw) raw) eqn:Eu;
      [|exact Hreset].
    right. apply (raw_above t h raw Eraw).
    destruct (N.eq_dec t 0%N) as [->|Ht]; [|left; exact Ht].
    destruct (N.eq_dec h 0%N) as [->|Hh]; [|right; exact Hh].
    rewrite raw_zero_reading in Eraw. injection Eraw as <-.
    unfold updates_phase_value in Eu. apply andb_prop in Eu. destruct Eu as [Eu _].
    discriminate Eu.
  - cbn. intros [= <- <-]. exact Hok.
Qed.

Lemma reachable_phase_value st : reachable st -> phase_value_ok st.
Proof.
  induction 1 as [|st frame rd st' row _ IH Hstep]; [apply initial_phase_value_ok|].
  exact (process_reading_phase_value _ _ _ _ _ IH Hstep).
Qed.

(** X6.  Which readings reset.  At any point of a run, a reset is detected
    on a present frame exactly when both numbers read are 0 and the phase
    value is positive: every other reading is worth at least
    1 / 10000 = 0.0001, which is not below the absolute threshold 0.00001,
    and the phase value, when it is not 0, is large enough for 1% of it to
    be above 0. *)
Theorem reset_exactly_on_zero_reading st t h raw :
  reachable st ->
  raw_current_damage_from_ocr t h = Done raw ->
  is_reset_detected st raw = true
  <-> t = 0%N /\ h = 0%N
      /\ (0 <? last_successful_ocr_value_in_current_phase st)%float = true.
Proof.
  intros Hr Hraw. unfold is_reset_detected. split.
  - intros H. apply andb_prop in H. destruct H as [H H3].
    apply andb_prop in H. destruct H as [H1 _].
    destruct (N.eq_dec t 0%N) as [->|Ht].
    + destruct (N.eq_dec h 0%N) as [->|Hh]; [auto|].
      rewrite (above_not_small raw) in H3; [discriminate|].
      apply (raw_above 0 h raw Hraw). right. exact Hh.
    + rewrite (above_not_small raw) in H3; [discriminate|].
      apply (raw_above t h raw Hraw). left. exact Ht.
  - intros (-> & -> & Hpos). rewrite raw_zero_reading in Hraw. injection Hraw as <-.
    rewrite Hpos. cbn [andb].
    destruct (reachable_phase_value st Hr) as [E|Ha].
    + rewrite E in Hpos. discriminate Hpos.
    + rewrite (drop_factor_positive _ Ha). reflexivity.
Qed.

Lemma reset_exactly_on_zero_reading_witness :
  reachable state_at_5_2
  /\ raw_current_damage_from_ocr 0 0 = Done 0%float
  /\ (is_reset_detected state_at_5_2 0 = true
      <-> 0%N = 0%N /\ 0%N = 0%N
          /\ (0 <? last_successful_ocr_value_in_current_phase state_at_5_2)%float = true).
Proof.
  assert (Hr : reachable state_at_5_2).
  { apply (reachable_step (mk_state 5 5 0 5 0 5) 24 (Some (5%N, 2000%N))
             state_at_5_2 (mk_row 24 5 2000 5.2 (5.2 - 5)));
      [|vm_compute; reflexivity].
    apply (reachable_step initial_state 0 (Some (5%N, 0%N))
             (mk_state 5 5 0 5 0 5) (mk_row 0 5 0 5 5));
      [apply reachable_initial|vm_compute; reflexivity]. }
  assert (Hraw : raw_current_damage_from_ocr 0 0 = Done 0%float) by (vm_compute; reflexivity).
  split; [exact Hr|]. split; [exact Hraw|].
  exact (reset_exactly_on_zero_reading state_at_5_2 0 0 0 Hr Hraw).
Defined.

(** * File names and OCR text *)

Lemma append_cons c (a b : string) : (String c a ++ b)%string = String c (a ++ b).
Proof. reflexivity. Qed.

Lemma append_nil (b : string) : (EmptyString ++ b)%string = b.
Proof. reflexivity. Qed.

Lemma append_assoc (a b c : string) : ((a ++ b) ++ c = a ++ (b ++ c))%string.
Proof.
  induction a as [|x a IH]; [reflexivity|].
  rewrite !append_cons, IH. reflexivity.
Qed.

Lemma append_empty_r (a : string) : (a ++ "")%string = a.
Proof.
  induction a as [|x a IH]; [reflexivity|]. rewrite append_cons, IH. reflexivity.
Qed.

Lemma substring_all (s : string) : substring 0 (String.length s) s = s.
Proof. induction s as [|c s IH]; simpl; [reflexivity|rewrite IH; reflexivity]. Qed.

Lemma digits_prefix_no_digit rest :
  no_digit_ahead rest -> digits_prefix rest = (EmptyString, rest).
Proof. destruct rest as [|c r]; simpl; [reflexivity|intros ->; reflexivity]. Qed.

Lemma digits_prefix_uint u rest :
  no_digit_ahead rest ->
  digits_prefix (NilEmpty.string_of_uint u ++ rest) = (NilEmpty.string_of_uint u, rest).
Proof.
  intros H. induction u; cbn [NilEmpty.string_of_uint];
    rewrite ?append_cons, ?append_nil; cbn [digits_prefix]; rewrite ?IHu;
    try reflexivity.
  apply digits_prefix_no_digit, H.
Qed.

Lemma digits_prefix_zeros n s :
  digits_prefix (zeros n ++ s)
  = (zeros n ++ fst (digits_prefix s), snd (digits_prefix s))%string.
Proof.
  induction n as [|n IH]; cbn [zeros]; rewrite ?append_cons, ?append_nil.
  - destruct (digits_prefix s); reflexivity.
  - cbn [digits_prefix]. change (is_digit "0") with true. cbv iota.
    rewrite IH. reflexivity.
Qed.

Lemma uint_of_string_zeros n u :
  NilEmpty.uint_of_string (zeros n ++ NilEmpty.string_of_uint u)
  = Some (Nat.iter n Decimal.D0 u).
Proof.
  induction n as [|n IH]; cbn [zeros]; rewrite ?append_cons, ?append_nil.
  - apply NilEmpty.usu.
  - cbn [NilEmpty.uint_of_string]. rewrite IH. reflexivity.
Qed.

Lemma of_uint_zeros n u : N.of_uint (Nat.iter n Decimal.D0 u) = N.of_uint u.
Proof. induction n as [|n IH]; [reflexivity|exact IH]. Qed.

Lemma digits_value_zeros n u :
  digits_value (zeros n ++ NilEmpty.string_of_uint u) = N.of_uint u.
Proof. unfold digits_value. rewrite uint_of_string_zeros. apply of_uint_zeros. Qed.

Lemma to_uint_nonnil n : N.to_uint n <> Decimal.Nil.
Proof. destruct n; [discriminate|apply DecimalPos.Unsigned.to_uint_nonnil]. Qed.

Lemma str_uint n : str n = NilEmpty.string_of_uint (N.to_uint n).
Proof.
  unfold str, NilZero.string_of_uint. pose proof (to_uint_nonnil n).
  destruct (N.to_uint n); congruence.
Qed.

Lemma string_of_uint_nonempty u :
  u <> Decimal.Nil -> NilEmpty.string_of_uint u <> EmptyString.
Proof. destruct u; simpl; congruence. Qed.

Lemma prefix_frame rest :
  String.prefix "frame_"
    (String "f" (String "r" (String "a" (String "m" (String "e" (String "_" rest))))))
  = true.
Proof. destruct rest; reflexivity. Qed.

Lemma search_frame_cons a x :
  search_frame (String a x) =
  if String.prefix "frame_" (String a x) then
    match digits_prefix (substring 6 (String.length (String a x) - 6) (String a x)) with
    | (String c d, _) => Some (String c d)
    | (EmptyString, _) => search_frame x
    end
  else search_frame x.
Proof. reflexivity. Qed.

Lemma search_frame_hit rest c d r :
  digits_prefix rest = (String c d, r) ->
  search_frame ("frame_" ++ rest) = Some (String c d).
Proof.
  intros H.
  change ("frame_" ++ rest)%string
    with (String "f" (String "r" (String "a" (String "m" (String "e" (String "_" rest)))))).
  rewrite search_frame_cons, prefix_frame.
  cbn [String.length Nat.sub substring].
  rewrite Nat.sub_0_r, substring_all, H. reflexivity.
Qed.

Lemma lower_append a b : lower (a ++ b) = (lower a ++ lower b)%string.
Proof.
  induction a as [|c a IH]; [reflexivity|].
  rewrite append_cons. cbn [lower]. rewrite append_cons, IH. reflexivity.
Qed.

Lemma endswith_append a suffix : endswith suffix (a ++ suffix) = true.
Proof.
  induction a as [|c a IH].
  - rewrite append_nil. destruct suffix; cbn [endswith]; rewrite String.eqb_refl; reflexivity.
  - rewrite append_cons. cbn [endswith]. rewrite IH.
    destruct (String.eqb _ _); reflexivity.
Qed.

(** The name of a frame is read back as its frame number, and has an image
    extension. *)
Lemma frame_file_name_parsed frame_idx :
  frame_number (frame_file_name frame_idx) = Some (Z.of_N frame_idx)
  /\ is_image_file (frame_file_name frame_idx) = true.
Proof.
  unfold frame_file_name. rewrite str_uint.
  set (u := N.to_uint frame_idx). set (k := (5 - String.length _)%nat).
  split.
  - assert (Hd : digits_prefix (zeros k ++ NilEmpty.string_of_uint u ++ ".png")
                 = ((zeros k ++ NilEmpty.string_of_uint u)%string, ".png"%string)).
    { rewrite digits_prefix_zeros, digits_prefix_uint by reflexivity. reflexivity. }
    unfold frame_number.
    destruct (zeros k ++ NilEmpty.string_of_uint u)%string as [|c d] eqn:E.
    + exfalso. destruct k; cbn [zeros] in E; rewrite ?append_cons, ?append_nil in E;
        [|discriminate].
      apply (string_of_uint_nonempty u); [apply to_uint_nonnil|exact E].
    + rewrite (search_frame_hit _ c d _ Hd), <- E, digits_value_zeros.
      unfold u. rewrite DecimalN.Unsigned.of_to. reflexivity.
  - unfold is_image_file.
    rewrite <- !append_assoc, lower_append.
    change (lower ".png") with ".png"%string.
    rewrite endswith_append. reflexivity.
Qed.

(** ** The number in an OCR text *)

Lemma findall_digits_skip run pre text :
  has_digit pre = false ->
  run = EmptyString ->
  findall_digits run (pre ++ text) = findall_digits EmptyString text.
Proof.
  intros Hpre ->. induction pre as [|c pre IH]; [reflexivity|].
  rewrite append_cons. cbn [has_digit] in Hpre. apply orb_false_elim in Hpre.
  destruct Hpre as [Hc Hpre]. cbn [findall_digits]. rewrite Hc. apply IH, Hpre.
Qed.

Lemma findall_digits_uint run u text :
  findall_digits run (NilEmpty.string_of_uint u ++ text)
  = findall_digits (run ++ NilEmpty.string_of_uint u) text.
Proof.
  revert run. induction u; intros run; cbn [NilEmpty.string_of_uint];
    [rewrite append_nil, append_empty_r; reflexivity|..];
    rewrite append_cons; cbn [findall_digits];
    match goal with |- context [is_digit ?c] => change (is_digit c) with true end;
    cbv iota; rewrite IHu, append_assoc; reflexivity.
Qed.

Lemma findall_digits_head c run post :
  no_digit_ahead post ->
  exists l, findall_digits (String c run) post = String c run :: l.
Proof.
  destruct post as [|a post]; simpl; [eauto|]. intros ->. eauto.
Qed.

Lemma zeros_uint k :
  zeros k = NilEmpty.string_of_uint (Nat.iter k Decimal.D0 Decimal.Nil).
Proof.
  induction k as [|k IH]; [reflexivity|].
  change (String "0" (zeros k)
          = String "0" (NilEmpty.string_of_uint (Nat.iter k Decimal.D0 Decimal.Nil))).
  f_equal. exact IH.
Qed.

Lemma length_append (s1 s2 : string) :
  String.length (s1 ++ s2) = (String.length s1 + String.length s2)%nat.
Proof.
  induction s1 as [|c s1 IH]; [rewrite append_nil; reflexivity|].
  rewrite append_cons. cbn [String.length]. rewrite IH. reflexivity.
Qed.

Lemma length_zeros k : String.length (zeros k) = k.
Proof. induction k as [|k IH]; [reflexivity|]. cbn [zeros String.length]. rewrite IH. reflexivity. Qed.

(** The number of a text is [int] of its first run of digits. *)
Lemma get_number_first_run pre k n post :
  has_digit pre = false -> no_digit_ahead post ->
  get_number_from_ocr_text (pre ++ zeros k ++ str n ++ post)
  = int_of_digits (zeros k ++ str n).
Proof.
  intros Hpre Hpost. unfold get_number_from_ocr_text.
  rewrite (findall_digits_skip _ pre _ Hpre eq_refl), str_uint.
  rewrite (zeros_uint k).
  rewrite !findall_digits_uint, !append_nil.
  assert (Hne : exists c run,
             (NilEmpty.string_of_uint (Nat.iter k Decimal.D0 Decimal.Nil)
              ++ NilEmpty.string_of_uint (N.to_uint n))%string = String c run).
  { pose proof (string_of_uint_nonempty _ (to_uint_nonnil n)) as Hn.
    destruct (NilEmpty.string_of_uint (Nat.iter k Decimal.D0 Decimal.Nil)) as [|c r];
      [|rewrite append_cons; eauto].
    rewrite append_nil. destruct (NilEmpty.string_of_uint (N.to_uint n)); [congruence|eauto]. }
  destruct Hne as (c & run & Hrun).
  destruct (findall_digits_head c run post Hpost) as [l Hl].
  rewrite Hrun, Hl. reflexivity.
Qed.

(** X7.  [get_number_from_ocr_text] on an ASCII text: it is 0 on a text
    without a digit; on a text whose first digits are the decimal writing
    of [n], zeros before it or not, it is [n], what comes before the first
    run of digits and after it being ignored, as long as the run has at
    most 4300 digits; and on a longer run [int] raises [ValueError], which
    the function lets through. *)
Theorem number_of_ocr_text :
  (forall text,
     ascii_text text = true -> has_digit text = false ->
     get_number_from_ocr_text text = Some 0%N)
  /\ (forall pre k n post,
        ascii_text pre = true -> ascii_text post = true ->
        has_digit pre = false -> no_digit_ahead post ->
        get_number_from_ocr_text (pre ++ zeros k ++ str n ++ post)
        = if (k + String.length (str n) <=? int_max_str_digits)%nat
          then Some n else None).
Proof.
  split.
  - intros text _ H. unfold get_number_from_ocr_text.
    rewrite <- (append_empty_r text), (findall_digits_skip _ text _ H eq_refl).
    reflexivity.
  - intros pre k n post _ _ Hpre Hpost.
    rewrite (get_number_first_run pre k n post Hpre Hpost).
    unfold int_of_digits. rewrite length_append, length_zeros.
    destruct (k + String.length (str n) <=? int_max_str_digits)%nat; [|reflexivity].
    rewrite str_uint, digits_value_zeros. f_equal. apply DecimalN.Unsigned.of_to.
Qed.

Lemma number_of_ocr_text_witness :
  ascii_text " " = true /\ ascii_text " 010" = true
  /\ has_digit " " = false /\ no_digit_ahead " 010"
  /\ get_number_from_ocr_text (" " ++ zeros 2 ++ str 1500 ++ " 010") = Some 1500%N
  /\ get_number_from_ocr_text (" " ++ zeros 4300 ++ str 7 ++ " 010") = None.
Proof.
  split; [reflexivity|]. split; [reflexivity|]. split; [reflexivity|].
  split; [reflexivity|].
  destruct number_of_ocr_text as [_ H].
  split.
  - exact (H " "%string 2%nat 1500%N " 010"%string eq_refl eq_refl eq_refl eq_refl).
  - exact (H " "%string 4300%nat 7%N " 010"%string eq_refl eq_refl eq_refl eq_refl).
Defined.

(** ** The dictionary of the frames *)

Lemma filter_insert_by_key (P : string -> bool) k f l :
  (forall g, P g = true -> sort_key g = k) ->
  List.filter P (insert_by_key f l)
  = if P f then f :: List.filter P l else List.filter P l.
Proof.
  intros HP. induction l as [|g l IH]; cbn [insert_by_key List.filter].
  - destruct (P f); reflexivity.
  - destruct (Z.leb_spec (sort_key f) (sort_key g)) as [Hle|Hlt]; cbn [List.filter].
    + destruct (P f); reflexivity.
    + rewrite IH. destruct (P f) eqn:Ef; [|reflexivity].
      destruct (P g) eqn:Eg; [|reflexivity].
      apply HP in Ef, Eg. lia.
Qed.

(** Sorting keeps the files of one frame in the order of the listing. *)
Lemma filter_sorted_by_key (P : string -> bool) k l :
  (forall g, P g = true -> sort_key g = k) ->
  List.filter P (sorted_by_key l) = List.filter P l.
Proof.
  intros HP. induction l as [|f l IH]; [reflexivity|].
  cbn [sorted_by_key List.filter]. rewrite (filter_insert_by_key P k f _ HP), IH.
  reflexivity.
Qed.

Lemma fold_left_frame_map files (m : gmap Z string) k :
  fold_left
    (fun m f => match frame_number f with Some k => <[k := f]> m | None => m end)
    files m !! k
  = match last (List.filter (has_frame_number k) files) with
    | Some f => Some f
    | None => m !! k
    end.
Proof.
  revert m. induction files as [|f files IH]; intros m; [reflexivity|].
  cbn [fold_left List.filter]. rewrite IH. unfold has_frame_number at 2.
  destruct (frame_number f) as [k'|] eqn:Ef.
  - destruct (decide (Some k' = Some k)) as [[= ->]|Hne].
    + rewrite bool_decide_eq_true_2 by reflexivity.
      rewrite lookup_insert_eq, last_cons.
      destruct (last (List.filter (has_frame_number k) files)); reflexivity.
    + rewrite bool_decide_eq_false_2 by exact Hne.
      rewrite lookup_insert_ne by congruence. reflexivity.
  - rewrite bool_decide_eq_false_2 by discriminate. reflexivity.
Qed.

(** Sorting apart, the entry of a frame is the last file of the listing
    with that frame number. *)
Lemma frame_map_lookup listing k :
  frame_map (image_files listing) !! k
  = last (List.filter (fun f => is_image_file f && has_frame_number k f) listing).
Proof.
  unfold frame_map, image_files. rewrite fold_left_frame_map, lookup_empty.
  rewrite (filter_sorted_by_key (has_frame_number k) k).
  - assert (H : List.filter (has_frame_number k) (List.filter is_image_file listing)
                = List.filter (fun f => is_image_file f && has_frame_number k f) listing).
    { induction listing as [|f l IH]; [reflexivity|]. cbn [List.filter].
      destruct (is_image_file f); cbn [List.filter andb]; rewrite IH; reflexivity. }
    rewrite H. destruct (last _); reflexivity.
  - intros g Hg. unfold has_frame_number in Hg. apply bool_decide_eq_true_1 in Hg.
    unfold sort_key. rewrite Hg. reflexivity.
Qed.

Lemma frame_file_name_inj i j : frame_file_name i = frame_file_name j -> i = j.
Proof.
  intros H.
  pose proof (proj1 (frame_file_name_parsed i)) as Hi.
  pose proof (proj1 (frame_file_name_parsed j)) as Hj.
  rewrite H, Hj in Hi. injection Hi as Hi. lia.
Qed.

(** X8.  Round trip of the file names: the frame number that [process_ocr]
    reads in the name that [process_video] gives frame [frame_idx] is
    [frame_idx], below and above the five digits of the padding; the name
    passes the filter of the image files; and no other frame is given the
    same name, so that no image is written over another. *)
Theorem frame_number_of_file_name frame_idx :
  frame_number (frame_file_name frame_idx) = Some (Z.of_N frame_idx)
  /\ is_image_file (frame_file_name frame_idx) = true
  /\ forall other, frame_file_name other = frame_file_name frame_idx -> other = frame_idx.
Proof.
  destruct (frame_file_name_parsed frame_idx) as [Hn Hi].
  repeat split; [exact Hn|exact Hi|]. intros other. apply frame_file_name_inj.
Qed.

(** X9.  In a folder of ASCII file names of at most 255 characters, the
    entry of a frame in the dictionary is the last file of the listing, in
    the order of the listing, that has an image extension and that frame
    number in its name: the sort by frame number plays no part in it.  A
    frame has an entry exactly when the listing has such a file. *)
Theorem frame_map_entry listing k :
  (forall f, In f listing -> plain_name f = true) ->
  frame_map (image_files listing) !! k
  = last (List.filter (fun f => is_image_file f && has_frame_number k f) listing)
  /\ (is_Some (frame_map (image_files listing) !! k)
      <-> exists f, In f listing /\ is_image_file f = true /\ frame_number f = Some k).
Proof.
  intros _.
  split; [apply frame_map_lookup|]. rewrite frame_map_lookup, last_is_Some.
  split.
  - intros Hne.
    destruct (List.filter _ listing) as [|f l] eqn:El; [congruence|].
    assert (Hf : In f (List.filter (fun f => is_image_file f && has_frame_number k f)
                         listing)) by (rewrite El; left; reflexivity).
    apply filter_In in Hf. destruct Hf as [Hin Hf]. apply andb_prop in Hf.
    destruct Hf as [Hi Hk]. apply bool_decide_eq_true_1 in Hk. eauto.
  - intros (f & Hin & Hi & Hk) E.
    assert (Hf : In f (List.filter (fun f => is_image_file f && has_frame_number k f)
                         listing)).
    { apply filter_In. split; [exact Hin|]. rewrite Hi. unfold has_frame_number.
      rewrite Hk. apply bool_decide_eq_true_2. reflexivity. }
    rewrite E in Hf. exact Hf.
Qed.

Lemma frame_map_entry_witness :
  (forall f, In f ["frame_12.png"; "frame_7.png"; "notes.txt"; "old_frame_007.JPG"]%string ->
     plain_name f = true)
  /\ frame_map (image_files ["frame_12.png"; "frame_7.png"; "notes.txt";
                             "old_frame_007.JPG"]%string) !! 7
     = Some "old_frame_007.JPG"%string.
Proof.
  assert (H : forall f,
             In f ["frame_12.png"; "frame_7.png"; "notes.txt"; "old_frame_007.JPG"]%string ->
             plain_name f = true).
  { intros f [<-|[<-|[<-|[<-|[]]]]]; reflexivity. }
  split; [exact H|].
  destruct (frame_map_entry _ 7 H) as [E _]. rewrite E. reflexivity.
Defined.



(** ** The loop from the files *)

Lemma frame_map_file listing k f :
  frame_map (image_files listing) !! k = Some f ->
  In f listing /\ is_image_file f = true /\ frame_number f = Some k.
Proof.
  rewrite frame_map_lookup. intros El.
  apply last_Some in El. destruct El as [l' El].
  assert (Hf : In f (List.filter (fun f => is_image_file f && has_frame_number k f)
                       listing)) by (rewrite El; apply in_or_app; right; left; reflexivity).
  apply filter_In in Hf. destruct Hf as [Hin Hf]. apply andb_prop in Hf.
  destruct Hf as [Hi Hk]. apply bool_decide_eq_true_1 in Hk. auto.
Qed.


Section FoldersLoop.
Variables ocr_trillion ocr_hundred_million : string -> string.

(** A frame either raises [ValueError], at a frame that has both images,
    or is read as from the numbers of the files. *)
Lemma frame_reading_files_spec tm hm frame :
  match frame_reading_files ocr_trillion ocr_hundred_million tm hm frame with
  | Outcome o =>
      o = Done (frame_reading (numbers_read ocr_trillion tm) (numbers_read ocr_hundred_million hm) frame)
      /\ forall tp hp, tm !! frame = Some tp -> hm !! frame = Some hp ->
           exists t h,
             get_number_from_ocr_text (ocr_trillion tp) = Some t
             /\ get_number_from_ocr_text (ocr_hundred_million hp) = Some h
             /\ o = Done (Some (t, h))
  | ValueError =>
      exists tp hp, tm !! frame = Some tp /\ hm !! frame = Some hp
        /\ (get_number_from_ocr_text (ocr_trillion tp) = None
            \/ get_number_from_ocr_text (ocr_hundred_million hp) = None)
  end.
Proof.
  unfold frame_reading_files, frame_reading, numbers_read. rewrite !lookup_fmap.
  destruct (tm !! frame) as [tp|]; cbn [fmap option_fmap option_map];
    [|split; [reflexivity|intros ? ? [=]]].
  destruct (hm !! frame) as [hp|]; cbn [fmap option_fmap option_map];
    [|split; [reflexivity|intros ? ? _ [=]]].
  destruct (get_number_from_ocr_text (ocr_trillion tp)) as [t|] eqn:Et;
    cbn [number_read mbind folders_outcome_bind]; [|eauto 6].
  destruct (get_number_from_ocr_text (ocr_hundred_million hp)) as [h|] eqn:Eh;
    cbn [number_read mbind folders_outcome_bind]; [|eauto 6].
  split; [reflexivity|]. intros tp' hp' [= <-] [= <-]. rewrite Et, Eh. eauto.
Qed.

Lemma frame_loop_files_spec fuel tm hm interval max frame st :
  match frame_loop_files ocr_trillion ocr_hundred_million fuel tm hm interval max frame st
  with
  | Outcome o =>
      frame_loop fuel (numbers_read ocr_trillion tm) (numbers_read ocr_hundred_million hm)
        interval max frame st = o
  | ValueError =>
      exists k tp hp, tm !! k = Some tp /\ hm !! k = Some hp
        /\ (get_number_from_ocr_text (ocr_trillion tp) = None
            \/ get_number_from_ocr_text (ocr_hundred_million hp) = None)
  end.
Proof.
  revert frame st. induction fuel as [|fuel IH]; intros frame st;
    cbn [frame_loop_files frame_loop]; destruct (frame <=? max); try reflexivity.
  unfold loop_body.
  pose proof (frame_reading_files_spec tm hm frame) as Hrd.
  destruct (frame_reading_files ocr_trillion ocr_hundred_million tm hm frame) as [o|];
    [|cbn [mbind folders_outcome_bind]; destruct Hrd as (tp & hp & H); eauto].
  destruct Hrd as [-> _]. cbn [mbind folders_outcome_bind].
  destruct (process_reading st frame
              (frame_reading (numbers_read ocr_trillion tm) (numbers_read ocr_hundred_million hm) frame))
    as [[st1 row]| | | |]; cbn [mbind folders_outcome_bind outcome_bind]; try reflexivity.
  specialize (IH (frame + interval) st1).
  destruct (frame_loop_files ocr_trillion ocr_hundred_million fuel tm hm interval max
              (frame + interval) st1) as [o|]; cbn [mbind folders_outcome_bind]; [|exact IH].
  rewrite IH. destruct o as [[rows st2]| | | |]; reflexivity.
Qed.


Lemma process_ocr_folders_unfold tl hl start_frame frame_interval fps :
  process_ocr_folders ocr_trillion ocr_hundred_million tl hl start_frame frame_interval fps
  = if (start_frame <? 0) || (frame_interval <=? 0) || (fps <=? 0)%float
    then Outcome InputError
    else
      match list_max (all_frame_numbers (readings_map ocr_trillion tl)
                        (readings_map ocr_hundred_million hl)) with
      | None => Outcome NoImages
      | Some max_frame_num =>
          '(rows, _) ←
            frame_loop_files ocr_trillion ocr_hundred_million
              (Z.to_nat (max_frame_num - start_frame + 1))
              (frame_map (image_files tl)) (frame_map (image_files hl))
              frame_interval max_frame_num start_frame initial_state;
          Outcome (Done rows)
      end.
Proof.
  unfold process_ocr_folders, all_frame_numbers, readings_map, numbers_read.
  rewrite !dom_fmap_L. reflexivity.
Qed.

(** Unless [ValueError] is raised, [process_ocr] comes to what it comes to
    from the numbers of the files. *)
Lemma process_ocr_folders_spec tl hl start_frame frame_interval fps :
  match process_ocr_folders ocr_trillion ocr_hundred_million tl hl
          start_frame frame_interval fps with
  | Outcome o =>
      process_ocr (readings_map ocr_trillion tl) (readings_map ocr_hundred_million hl)
        start_frame frame_interval fps = o
  | ValueError =>
      (exists f, In f tl /\ get_number_from_ocr_text (ocr_trillion f) = None)
      \/ (exists f, In f hl /\ get_number_from_ocr_text (ocr_hundred_million f) = None)
  end.
Proof.
  rewrite process_ocr_folders_unfold. unfold process_ocr, process_ocr_fuel, enough_fuel.
  destruct ((start_frame <? 0) || (frame_interval <=? 0) || (fps <=? 0)%float);
    [reflexivity|].
  destruct (list_max _) as [max|]; [|reflexivity].
  pose proof (frame_loop_files_spec (Z.to_nat (max - start_frame + 1))
                (frame_map (image_files tl)) (frame_map (image_files hl))
                frame_interval max start_frame initial_state) as H.
  destruct (frame_loop_files _ _ _ _ _ _ _ _ _) as [o|]; cbn [mbind folders_outcome_bind].
  - change (numbers_read ocr_trillion (frame_map (image_files tl)))
      with (readings_map ocr_trillion tl) in H.
    change (numbers_read ocr_hundred_million (frame_map (image_files hl)))
      with (readings_map ocr_hundred_million hl) in H.
    rewrite H. destruct o as [[rows st']| | | |]; reflexivity.
  - destruct H as (k & tp & hp & Ht & Hh & [E|E]).
    + left. exists tp. split; [apply (frame_map_file tl k tp Ht)|exact E].
    + right. exists hp. split; [apply (frame_map_file hl k hp Hh)|exact E].
Qed.

End FoldersLoop.




(** ** What [process_ocr] reports *)

Lemma frame_loop_outcome fuel tm hm interval max frame st :
  frame_loop fuel tm hm interval max frame st <> InputError
  /\ frame_loop fuel tm hm interval max frame st <> NoImages.
Proof.
  revert frame st. induction fuel as [|fuel IH]; intros frame st; simpl;
    destruct (frame <=? max); try (split; discriminate).
  unfold loop_body.
  destruct (process_reading_outcome st frame (frame_reading tm hm frame))
    as [[[st1 row] ->]| ->]; cbn [mbind outcome_bind]; [|split; discriminate].
  destruct (IH (frame + interval) st1) as [H1 H2].
  destruct (frame_loop fuel tm hm interval max (frame + interval) st1) as [[rows st2]| | | |];
    cbn [mbind outcome_bind]; split; congruence.
Qed.

Lemma all_frame_numbers_nil (tm hm : gmap Z N) :
  all_frame_numbers tm hm = [] <-> tm = ∅ /\ hm = ∅.
Proof.
  split.
  - intros E.
    assert (H : forall k, ~ k ∈ dom tm ∪ dom hm).
    { intros k Hk. apply all_frame_numbers_spec in Hk. rewrite E in Hk. destruct Hk. }
    split; apply map_empty; intros k; apply not_elem_of_dom; intros Hk; apply (H k);
      apply elem_of_union; auto.
  - intros [-> ->]. reflexivity.
Qed.

(** What [process_ocr] comes to from the numbers of the frames. *)
Lemma process_ocr_outcomes tm hm start_frame frame_interval fps :
  (process_ocr tm hm start_frame frame_interval fps = InputError
   <-> start_frame < 0 \/ frame_interval <= 0 \/ (fps <=? 0)%float = true)
  /\ (process_ocr tm hm start_frame frame_interval fps = NoImages
      <-> (0 <= start_frame /\ 0 < frame_interval /\ (fps <=? 0)%float = false)
          /\ tm = ∅ /\ hm = ∅)
  /\ process_ocr tm hm start_frame frame_interval fps <> OutOfFuel
  /\ (process_ocr tm hm start_frame frame_interval fps = OverflowError ->
      ~ (readings_bounded tm /\ readings_bounded hm))
  /\ (0 <= start_frame -> 0 < frame_interval -> (fps <=? 0)%float = false ->
      ~ (tm = ∅ /\ hm = ∅) -> readings_bounded tm -> readings_bounded hm ->
      exists rows, process_ocr tm hm start_frame frame_interval fps = Done rows).
Proof.
  assert (Hrows : 0 <= start_frame -> 0 < frame_interval -> (fps <=? 0)%float = false ->
                  ~ (tm = ∅ /\ hm = ∅) -> readings_bounded tm -> readings_bounded hm ->
                  exists rows, process_ocr tm hm start_frame frame_interval fps = Done rows).
  { intros Hs Hi Hfps Hne Ht Hh.
    apply process_ocr_writes_rows; try assumption.
    intros Hd. apply Hne. rewrite <- all_frame_numbers_nil.
    destruct (all_frame_numbers tm hm) as [|x l] eqn:El; [reflexivity|].
    assert (Hx : x ∈ dom tm ∪ dom hm)
      by (apply all_frame_numbers_spec; rewrite El; left; reflexivity).
    rewrite Hd in Hx. apply not_elem_of_empty in Hx. destruct Hx. }
  split; [|split; [|split; [|split]]]; [| | | |exact Hrows].
  - unfold process_ocr, process_ocr_fuel.
    destruct (Z.ltb_spec start_frame 0); [cbn; split; auto|].
    destruct (Z.leb_spec frame_interval 0); [cbn; split; auto|]. cbn [orb].
    destruct (fps <=? 0)%float; [cbn; split; auto|].
    split; [|intros [?|[?|?]]; lia || discriminate].
    destruct (list_max (all_frame_numbers tm hm)) as [max|]; [|discriminate].
    destruct (frame_loop_outcome (enough_fuel tm hm start_frame) tm hm frame_interval max
                start_frame initial_state) as [Hi _].
    destruct (frame_loop _ tm hm frame_interval max start_frame initial_state)
      as [[rows st']| | | |]; cbn [mbind outcome_bind]; congruence.
  - rewrite <- all_frame_numbers_nil. unfold process_ocr, process_ocr_fuel.
    destruct (Z.ltb_spec start_frame 0); [cbn; split; [discriminate|lia]|].
    destruct (Z.leb_spec frame_interval 0); [cbn; split; [discriminate|lia]|]. cbn [orb].
    destruct (fps <=? 0)%float;
      [cbn; split; [discriminate|intros [(_ & _ & ?) _]; discriminate]|].
    unfold list_max.
    destruct (all_frame_numbers tm hm) as [|x l];
      [cbn; split; auto|].
    split; [|intros [_ ?]; discriminate].
    destruct (frame_loop_outcome (enough_fuel tm hm start_frame) tm hm frame_interval
                (fold_left Z.max l x) start_frame initial_state) as [_ Hn].
    destruct (frame_loop _ tm hm frame_interval _ start_frame initial_state)
      as [[rows st']| | | |]; cbn [mbind outcome_bind]; congruence.
  - unfold process_ocr, process_ocr_fuel, enough_fuel.
    destruct (Z.ltb_spec start_frame 0); [discriminate|].
    destruct (Z.leb_spec frame_interval 0) as [|Hi]; [discriminate|]. cbn [orb].
    destruct (fps <=? 0)%float; [discriminate|].
    destruct (list_max (all_frame_numbers tm hm)) as [max|]; [|discriminate].
    pose proof (frame_loop_fuel (Z.to_nat (max - start_frame + 1)) tm hm frame_interval
                  max start_frame initial_state Hi (Nat.le_refl _)) as Hf.
    destruct (frame_loop _ tm hm frame_interval max start_frame initial_state)
      as [[rows st']| | | |]; cbn [mbind outcome_bind]; congruence.
  - intros E [Ht Hh].
    destruct (Z.ltb_spec start_frame 0) as [Hs|Hs].
    { revert E. unfold process_ocr, process_ocr_fuel.
      destruct (Z.ltb_spec start_frame 0); [discriminate|lia]. }
    destruct (Z.leb_spec frame_interval 0) as [Hi|Hi].
    { revert E. unfold process_ocr, process_ocr_fuel.
      destruct (Z.ltb_spec start_frame 0); [discriminate|].
      destruct (Z.leb_spec frame_interval 0); [discriminate|lia]. }
    destruct (fps <=? 0)%float eqn:Efps.
    { revert E. unfold process_ocr, process_ocr_fuel.
      destruct (Z.ltb_spec start_frame 0); [discriminate|].
      destruct (Z.leb_spec frame_interval 0); [discriminate|]. rewrite Efps. discriminate. }
    destruct (decide (tm = ∅ /\ hm = ∅)) as [He|He].
    + revert E. unfold process_ocr, process_ocr_fuel.
      destruct (Z.ltb_spec start_frame 0); [discriminate|].
      destruct (Z.leb_spec frame_interval 0); [discriminate|]. rewrite Efps. cbn [orb].
      apply all_frame_numbers_nil in He. rewrite He. discriminate.
    + destruct (Hrows Hs Hi eq_refl He Ht Hh) as [rows Hr]. congruence.
Qed.

Lemma readings_map_empty ocr listing :
  readings_map ocr listing = ∅
  <-> forall f, In f listing -> is_image_file f = true -> frame_number f = None.
Proof.
  unfold readings_map, numbers_read. rewrite fmap_empty_iff, map_empty. split.
  - intros H f Hin Hi. destruct (frame_number f) as [k|] eqn:Ek; [|reflexivity].
    specialize (H k). rewrite frame_map_lookup, last_None in H.
    assert (Hf : In f (List.filter (fun f => is_image_file f && has_frame_number k f)
                         listing)).
    { apply filter_In. split; [exact Hin|]. rewrite Hi. unfold has_frame_number.
      rewrite Ek. apply bool_decide_eq_true_2. reflexivity. }
    rewrite H in Hf. destruct Hf.
  - intros H k. destruct (frame_map (image_files listing) !! k) as [f|] eqn:E; [|reflexivity].
    destruct (frame_map_file listing k f E) as (Hin & Hi & Hk).
    rewrite (H f Hin Hi) in Hk. discriminate Hk.
Qed.

Lemma readings_map_file ocr listing k v :
  readings_map ocr listing !! k = Some v ->
  exists f, In f listing /\ v = default 0%N (get_number_from_ocr_text (ocr f)).
Proof.
  unfold readings_map, numbers_read. rewrite lookup_fmap.
  destruct (frame_map (image_files listing) !! k) as [f|] eqn:E; [|discriminate].
  intros [= <-]. exists f. split; [apply (frame_map_file listing k f E)|reflexivity].
Qed.

Lemma readings_not_bounded ocr listing :
  ~ readings_bounded (readings_map ocr listing) ->
  exists f n, In f listing /\ get_number_from_ocr_text (ocr f) = Some n
    /\ (2 ^ 1023 <= n)%N.
Proof.
  intros H.
  assert (Hn : ~ map_Forall (fun (_ : Z) (v : N) => (v < 2 ^ 1023)%N)
                 (readings_map ocr listing)) by exact H.
  apply map_not_Forall in Hn; [|intros; apply _].
  destruct Hn as (k & v & Hk & Hv).
  apply readings_map_file in Hk. destruct Hk as (f & Hin & ->).
  destruct (get_number_from_ocr_text (ocr f)) as [n|] eqn:E.
  - exists f, n. split; [exact Hin|]. split; [exact E|]. cbn in Hv. lia.
  - exfalso. apply Hv. reflexivity.
Qed.

Lemma readings_map_bounded ocr listing :
  (forall f, In f listing ->
     exists n, get_number_from_ocr_text (ocr f) = Some n /\ (n < 2 ^ 1023)%N) ->
  readings_bounded (readings_map ocr listing).
Proof.
  intros H k v Hk. apply readings_map_file in Hk. destruct Hk as (f & Hin & ->).
  destruct (H f Hin) as (n & -> & Hn). exact Hn.
Qed.

(** X11.  What [process_ocr] comes to once the two folders exist and the
    three settings are numbers, from the listings of the folders, for
    file names and OCR texts in ASCII.  The settings are checked first:
    "Input Error" is reported exactly when the start frame is negative or
    the interval or the frame rate is not positive, whatever the folders
    hold.  "No Images" is reported exactly when the settings pass and no
    file of either folder has both an image extension and [frame_<digits>]
    in its name.  The loop never runs without end.  An [OverflowError]
    comes from an image whose number is [2 ^ 1023] or more, a [ValueError]
    from an image whose text has a first run of more than 4300 digits.
    And when the settings pass, some image has a frame number and every
    image is read as a number below [2 ^ 1023], the rows are written. *)
Theorem process_ocr_reports ocr_trillion ocr_hundred_million
    trillion_listing hundred_million_listing start_frame frame_interval fps :
  (forall f, In f (trillion_listing ++ hundred_million_listing) -> plain_name f = true) ->
  (forall f, In f trillion_listing -> ascii_text (ocr_trillion f) = true) ->
  (forall f, In f hundred_million_listing -> ascii_text (ocr_hundred_million f) = true) ->
  (process_ocr_folders ocr_trillion ocr_hundred_million
     trillion_listing hundred_million_listing start_frame frame_interval fps
   = Outcome InputError
   <-> start_frame < 0 \/ frame_interval <= 0 \/ (fps <=? 0)%float = true)
  /\ (process_ocr_folders ocr_trillion ocr_hundred_million
        trillion_listing hundred_million_listing start_frame frame_interval fps
      = Outcome NoImages
      <-> (0 <= start_frame /\ 0 < frame_interval /\ (fps <=? 0)%float = false)
          /\ forall f, In f (trillion_listing ++ hundred_million_listing) ->
               is_image_file f = true -> frame_number f = None)
  /\ process_ocr_folders ocr_trillion ocr_hundred_million
       trillion_listing hundred_million_listing start_frame frame_interval fps
     <> Outcome OutOfFuel
  /\ (process_ocr_folders ocr_trillion ocr_hundred_million
        trillion_listing hundred_million_listing start_frame frame_interval fps
      = Outcome OverflowError ->
      (exists f n, In f trillion_listing
         /\ get_number_from_ocr_text (ocr_trillion f) = Some n /\ (2 ^ 1023 <= n)%N)
      \/ (exists f n, In f hundred_million_listing
            /\ get_number_from_ocr_text (ocr_hundred_million f) = Some n
            /\ (2 ^ 1023 <= n)%N))
  /\ (process_ocr_folders ocr_trillion ocr_hundred_million
        trillion_listing hundred_million_listing start_frame frame_interval fps
      = ValueError ->
      (0 <= start_frame /\ 0 < frame_interval /\ (fps <=? 0)%float = false)
      /\ ((exists f, In f trillion_listing
             /\ get_number_from_ocr_text (ocr_trillion f) = None)
          \/ (exists f, In f hundred_million_listing
                /\ get_number_from_ocr_text (ocr_hundred_million f) = None)))
  /\ (0 <= start_frame -> 0 < frame_interval -> (fps <=? 0)%float = false ->
      (exists f, In f (trillion_listing ++ hundred_million_listing)
         /\ is_image_file f = true /\ frame_number f <> None) ->
      (forall f, In f trillion_listing ->
         exists n, get_number_from_ocr_text (ocr_trillion f) = Some n
           /\ (n < 2 ^ 1023)%N) ->
      (forall f, In f hundred_million_listing ->
         exists n, get_number_from_ocr_text (ocr_hundred_million f) = Some n
           /\ (n < 2 ^ 1023)%N) ->
      exists rows,
        process_ocr_folders ocr_trillion ocr_hundred_million
          trillion_listing hundred_million_listing start_frame frame_interval fps
        = Outcome (Done rows)).
Proof.
  intros _ _ _.
  pose proof (process_ocr_folders_spec ocr_trillion ocr_hundred_million
                trillion_listing hundred_million_listing start_frame frame_interval fps)
    as Hspec.
  pose proof (process_ocr_folders_unfold ocr_trillion ocr_hundred_million
                trillion_listing hundred_million_listing start_frame frame_interval fps)
    as Hunfold.
  set (tm := readings_map ocr_trillion trillion_listing) in *.
  set (hm := readings_map ocr_hundred_million hundred_million_listing) in *.
  destruct (process_ocr_outcomes tm hm start_frame frame_interval fps)
    as (Hin & Hno & Hfuel & Hover & Hrows).
  assert (Hempty : tm = ∅ /\ hm = ∅
                   <-> forall f, In f (trillion_listing ++ hundred_million_listing) ->
                         is_image_file f = true -> frame_number f = None).
  { unfold tm, hm. rewrite !readings_map_empty. split.
    - intros [Ht Hh] f Hf. apply in_app_or in Hf. destruct Hf; auto.
    - intros H. split; intros f Hf; apply H, in_or_app; auto. }
  assert (Hvalid : forall b : bool,
             (start_frame <? 0) || (frame_interval <=? 0) || b = false
             <-> 0 <= start_frame /\ 0 < frame_interval /\ b = false).
  { intros b. destruct (Z.ltb_spec start_frame 0), (Z.leb_spec frame_interval 0), b;
      cbn; split; try discriminate; try (intros (? & ? & ?)); try lia; try discriminate;
      auto. }
  set (out := process_ocr_folders ocr_trillion ocr_hundred_million
                trillion_listing hundred_million_listing start_frame frame_interval fps) in *.
  split; [|split; [|split; [|split; [|split]]]].
  - split.
    + intros E. rewrite E in Hspec. apply Hin, Hspec.
    + intros H. rewrite Hunfold.
      destruct ((start_frame <? 0) || (frame_interval <=? 0) || (fps <=? 0)%float) eqn:Eb;
        [reflexivity|].
      apply Hvalid in Eb. destruct Eb as (? & ? & Ef).
      destruct H as [?|[?|H]]; try lia. rewrite H in Ef. discriminate Ef.
  - rewrite <- Hempty. split.
    + intros E. rewrite E in Hspec. apply Hno, Hspec.
    + intros [Hv He]. rewrite Hunfold. apply Hvalid in Hv. rewrite Hv.
      apply all_frame_numbers_nil in He. rewrite He. reflexivity.
  - intros E. rewrite E in Hspec. exact (Hfuel Hspec).
  - intros E. rewrite E in Hspec. apply Hover in Hspec.
    destruct (decide (map_Forall (fun (_ : Z) (v : N) => (v < 2 ^ 1023)%N) tm)) as [Ht|Ht].
    + right. apply readings_not_bounded. intros Hh. apply Hspec. split; [exact Ht|exact Hh].
    + left. apply readings_not_bounded. exact Ht.
  - intros E. rewrite E in Hspec. split; [|exact Hspec].
    apply Hvalid. rewrite Hunfold in E.
    destruct ((start_frame <? 0) || (frame_interval <=? 0) || (fps <=? 0)%float);
      [discriminate E|reflexivity].
  - intros Hs Hi Hfps (f & Hf & Himg & Hnum) Ht Hh.
    destruct (Hrows Hs Hi Hfps) as [rows Hr].
    + intros He. apply Hnum, (proj1 Hempty He f Hf Himg).
    + apply readings_map_bounded, Ht.
    + apply readings_map_bounded, Hh.
    + exists rows. destruct out as [o|].
      * rewrite Hspec in Hr. rewrite Hr. reflexivity.
      * exfalso. destruct Hspec as [(g & Hg & E)|(g & Hg & E)].
        -- destruct (Ht g Hg) as (n & En & _). congruence.
        -- destruct (Hh g Hg) as (n & En & _). congruence.
Qed.

Lemma process_ocr_reports_witness :
  (forall f, In f (["frame_00000.png"; "frame_00024.png"]%string
                   ++ ["frame_00000.png"; "notes.txt"]%string)%list -> plain_name f = true)
  /\ process_ocr_folders (fun _ => "3"%string) (fun _ => "1200"%string)
       ["frame_00000.png"; "frame_00024.png"]%string
       ["frame_00000.png"; "notes.txt"]%string 0 24 23.84
     <> Outcome OutOfFuel
  /\ exists rows,
       process_ocr_folders (fun _ => "3"%string) (fun _ => "1200"%string)
         ["frame_00000.png"; "frame_00024.png"]%string
         ["frame_00000.png"; "notes.txt"]%string 0 24 23.84
       = Outcome (Done rows).
Proof.
  assert (Hn : forall f, In f (["frame_00000.png"; "frame_00024.png"]%string
                               ++ ["frame_00000.png"; "notes.txt"]%string)%list ->
                 plain_name f = true).
  { intros f [<-|[<-|[<-|[<-|[]]]]]; reflexivity. }
  destruct (process_ocr_reports (fun _ => "3"%string) (fun _ => "1200"%string)
              ["frame_00000.png"; "frame_00024.png"]%string
              ["frame_00000.png"; "notes.txt"]%string 0 24 23.84
              Hn (fun _ _ => eq_refl) (fun _ _ => eq_refl))
    as (_ & _ & Hfuel & _ & _ & Hrows).
  split; [exact Hn|]. split; [exact Hfuel|].
  apply Hrows.
  - lia.
  - lia.
  - reflexivity.
  - exists "frame_00000.png"%string. split; [left; reflexivity|].
    split; [reflexivity|discriminate].
  - intros f _. exists 3%N. split; [reflexivity|reflexivity].
  - intros f _. exists 1200%N. split; [reflexivity|reflexivity].
Defined.

(** * The selection of the two regions *)

Lemma update_ui_state_ok s : regions_ok s -> selector_ok (update_ui_state s).
Proof.
  intros Hr. split; [exact Hr|].
  destruct Hr as (Hstep & _). unfold buttons_ok, update_ui_state; cbn.
  destruct (Z.eqb_spec (current_roi_step s) 1), (Z.eqb_spec (current_roi_step s) 2),
    (Z.eqb_spec (current_roi_step s) 3), (Z.leb_spec 1 (current_roi_step s));
    cbn; try lia; repeat split; reflexivity.
Qed.

Lemma drawn_rectangle_ok ix iy x y : rectangle_ok (Some (drawn_rectangle ix iy x y)).
Proof. unfold rectangle_ok, drawn_rectangle. lia. Qed.

Ltac regions :=
  unfold regions_ok; cbn;
  repeat match goal with
         | |- context [?a =? ?b] => destruct (Z.eqb_spec a b)
         end;
  repeat split; intros; try assumption; try discriminate; try lia; auto;
  try match goal with
      | H : _ -> ?P |- ?P => apply H; lia
      end.

Lemma select_video_ok path shown s : selector_ok s -> selector_ok (select_video path shown s).
Proof.
  intros [Hr Hb]. destruct path as [|c path]; [split; assumption|].
  unfold select_video.
  destruct Hr as (Hstep & Hv & H1 & H2 & Hr1 & Hr2 & Hd).
  destruct shown; [apply update_ui_state_ok|apply update_ui_state_ok|split; [|exact Hb]];
    regions.
Qed.

Lemma on_mouse_down_ok x y s : selector_ok s -> selector_ok (on_mouse_down x y s).
Proof.
  intros H. unfold on_mouse_down.
  destruct ((current_roi_step s =? 1) || (current_roi_step s =? 2)); exact H.
Qed.

Lemma on_mouse_up_ok x y s : selector_ok s -> selector_ok (on_mouse_up x y s).
Proof.
  intros [Hr Hb]. unfold on_mouse_up. destruct (drawing s); [|split; assumption].
  destruct Hr as (Hstep & Hv & H1 & H2 & Hr1 & Hr2 & Hd).
  apply update_ui_state_ok. regions.
Qed.

Lemma confirm_current_roi_ok s : selector_ok s -> selector_ok (confirm_current_roi s).
Proof.
  intros [Hr Hb]. unfold confirm_current_roi.
  destruct (current_roi_drawing s) as [r|] eqn:Er; [|split; assumption].
  pose proof Hr as (Hstep & Hv & H1 & H2 & Hr1 & Hr2 & Hd). rewrite Er in Hd.
  destruct (Z.eqb_spec (current_roi_step s) 1);
    [|destruct (Z.eqb_spec (current_roi_step s) 2)];
    apply update_ui_state_ok; [regions..|exact Hr].
Qed.

Lemma redraw_current_roi_ok s : selector_ok s -> selector_ok (redraw_current_roi s).
Proof.
  intros [Hr Hb]. unfold redraw_current_roi.
  destruct Hr as (Hstep & Hv & H1 & H2 & Hr1 & Hr2 & Hd).
  apply update_ui_state_ok. regions.
Qed.

Lemma new_selector_ok : selector_ok new_selector.
Proof. split; [regions|repeat split]. Qed.

Lemma handle_ok s e : selector_ok s -> selector_ok (handle s e).
Proof.
  intros H. destruct e as [path shown|x y|x y|x y| |]; cbn.
  - apply select_video_ok, H.
  - destruct (canvas_bound s); [apply on_mouse_down_ok|]; exact H.
  - exact H.
  - destruct (canvas_bound s); [apply on_mouse_up_ok|]; exact H.
  - destruct (btn_confirm_roi s); [apply confirm_current_roi_ok|]; exact H.
  - destruct (btn_redraw_roi s); [apply redraw_current_roi_ok|]; exact H.
Qed.

Lemma handle_all_ok events s : selector_ok s -> selector_ok (handle_all s events).
Proof.
  revert s. induction events as [|e events IH]; intros s H; [exact H|].
  apply IH, handle_ok, H.
Qed.

(** X12.  Whatever the user does from the start of the program, the three
    buttons show the step: "Start Processing" is enabled exactly in step
    3, the redraw button exactly in steps 1 to 3, and the confirm button
    exactly in steps 1 and 2 once a rectangle is drawn; the step is never
    outside 0..3. *)
Theorem buttons_follow_the_step events :
  buttons_ok (handle_all new_selector events)
  /\ 0 <= current_roi_step (handle_all new_selector events) <= 3.
Proof.
  destruct (handle_all_ok events new_selector new_selector_ok) as [Hr Hb].
  split; [exact Hb|apply Hr].
Qed.

(** X13.  Whenever "Start Processing" is enabled, a video is selected and
    both regions are set, each of a width and a height that are not
    negative: [process_video] shows neither of its two warnings and goes on
    to open the video. *)
Theorem start_processing_has_both_regions events opened :
  btn_process (handle_all new_selector events) = true ->
  exists path r1 r2,
    video_path (handle_all new_selector events) = Some path
    /\ roi1 (handle_all new_selector events) = Some r1
    /\ roi2 (handle_all new_selector events) = Some r2
    /\ rectangle_ok (Some r1) /\ rectangle_ok (Some r2)
    /\ process_video_start opened (handle_all new_selector events)
       = if opened then Cropping r1 r2 else CouldNotOpen.
Proof.
  intros Hbtn.
  destruct (handle_all_ok events new_selector new_selector_ok)
    as [(Hstep & Hv & H1 & H2 & Hr1 & Hr2 & _) (Hp & _)].
  set (s := handle_all new_selector events) in *.
  rewrite Hbtn in Hp. symmetry in Hp. apply Z.eqb_eq in Hp.
  unfold process_video_start.
  destruct (video_path s) as [path|]; [|exfalso; apply Hv; [lia|reflexivity]].
  destruct (roi1 s) as [r1|]; [|exfalso; apply H1; [lia|reflexivity]].
  destruct (roi2 s) as [r2|]; [|exfalso; apply H2; [lia|reflexivity]].
  exists path, r1, r2. repeat split; assumption || reflexivity || apply Hr1 || apply Hr2.
Qed.

Lemma start_processing_has_both_regions_witness :
  exists path r1 r2,
    video_path
      (handle_all new_selector
         [SelectVideo "a.mp4" FrameShown; MouseDown 10 20; MouseMove 30 30; MouseUp 50 70;
          ClickConfirm; MouseDown 90 90; MouseUp 30 40; ClickConfirm]) = Some path
    /\ roi1
         (handle_all new_selector
            [SelectVideo "a.mp4" FrameShown; MouseDown 10 20; MouseMove 30 30;
             MouseUp 50 70; ClickConfirm; MouseDown 90 90; MouseUp 30 40; ClickConfirm])
       = Some r1
    /\ roi2
         (handle_all new_selector
            [SelectVideo "a.mp4" FrameShown; MouseDown 10 20; MouseMove 30 30;
             MouseUp 50 70; ClickConfirm; MouseDown 90 90; MouseUp 30 40; ClickConfirm])
       = Some r2
    /\ rectangle_ok (Some r1) /\ rectangle_ok (Some r2)
    /\ process_video_start true
         (handle_all new_selector
            [SelectVideo "a.mp4" FrameShown; MouseDown 10 20; MouseMove 30 30;
             MouseUp 50 70; ClickConfirm; MouseDown 90 90; MouseUp 30 40; ClickConfirm])
       = Cropping r1 r2.
Proof.
  apply (start_processing_has_both_regions
           [SelectVideo "a.mp4" FrameShown; MouseDown 10 20; MouseMove 30 30; MouseUp 50 70;
            ClickConfirm; MouseDown 90 90; MouseUp 30 40; ClickConfirm] true).
  reflexivity.
Defined.

Lemma handle_ready s e :
  current_roi_step s = 3 -> is_select_video e = false ->
  current_roi_step (handle s e) = 3 /\ roi1 (handle s e) = roi1 s
  /\ roi2 (handle s e) = roi2 s /\ video_path (handle s e) = video_path s.
Proof.
  intros Hs He. destruct e as [path shown|x y|x y|x y| |]; try discriminate He; cbn.
  - unfold on_mouse_down. rewrite Hs. cbn. destruct (canvas_bound s); auto.
  - auto.
  - unfold on_mouse_up. destruct (canvas_bound s), (drawing s); cbn; auto.
  - unfold confirm_current_roi. rewrite Hs. cbn.
    destruct (btn_confirm_roi s), (current_roi_drawing s); cbn; auto.
  - unfold redraw_current_roi. rewrite Hs. cbn. destruct (btn_redraw_roi s); cbn; auto.
Qed.

(** X14.  Once both regions are confirmed (step 3) they stay as they are
    until another video is selected: drawing on the canvas, "Confirm ROI"
    and the button that then reads "Redraw Last ROI" change neither region
    nor the step, so [process_video] starts the same way. *)
Theorem regions_fixed_when_ready s events opened :
  current_roi_step s = 3 ->
  Forall (fun e => is_select_video e = false) events ->
  current_roi_step (handle_all s events) = 3
  /\ roi1 (handle_all s events) = roi1 s
  /\ roi2 (handle_all s events) = roi2 s
  /\ process_video_start opened (handle_all s events) = process_video_start opened s.
Proof.
  intros Hs Hev. revert s Hs. induction Hev as [|e events He _ IH]; intros s Hs.
  - cbn. auto.
  - destruct (handle_ready s e Hs He) as (Hs' & E1 & E2 & Ev).
    destruct (IH (handle s e) Hs') as (Hs'' & E1' & E2' & Ep).
    change (handle_all s (e :: events)) with (handle_all (handle s e) events).
    rewrite Hs'', E1', E2', Ep, E1, E2.
    repeat split. unfold process_video_start. rewrite Ev, E1, E2. reflexivity.
Qed.

Lemma regions_fixed_when_ready_witness :
  current_roi_step
    (handle_all
       (handle_all new_selector
          [SelectVideo "a.mp4" FrameShown; MouseDown 10 20; MouseUp 50 70; ClickConfirm;
           MouseDown 90 90; MouseUp 30 40; ClickConfirm])
       [ClickRedraw; MouseDown 1 1; MouseUp 2 2; ClickConfirm]) = 3
  /\ roi1
       (handle_all
          (handle_all new_selector
             [SelectVideo "a.mp4" FrameShown; MouseDown 10 20; MouseUp 50 70; ClickConfirm;
              MouseDown 90 90; MouseUp 30 40; ClickConfirm])
          [ClickRedraw; MouseDown 1 1; MouseUp 2 2; ClickConfirm])
     = Some (10, 20, 40, 50)
  /\ roi2
       (handle_all
          (handle_all new_selector
             [SelectVideo "a.mp4" FrameShown; MouseDown 10 20; MouseUp 50 70; ClickConfirm;
              MouseDown 90 90; MouseUp 30 40; ClickConfirm])
          [ClickRedraw; MouseDown 1 1; MouseUp 2 2; ClickConfirm])
     = Some (30, 40, 60, 50)
  /\ process_video_start true
       (handle_all
          (handle_all new_selector
             [SelectVideo "a.mp4" FrameShown; MouseDown 10 20; MouseUp 50 70; ClickConfirm;
              MouseDown 90 90; MouseUp 30 40; ClickConfirm])
          [ClickRedraw; MouseDown 1 1; MouseUp 2 2; ClickConfirm])
     = Cropping (10, 20, 40, 50) (30, 40, 60, 50).
Proof.
  apply (regions_fixed_when_ready
           (handle_all new_selector
              [SelectVideo "a.mp4" FrameShown; MouseDown 10 20; MouseUp 50 70; ClickConfirm;
               MouseDown 90 90; MouseUp 30 40; ClickConfirm])
           [ClickRedraw; MouseDown 1 1; MouseUp 2 2; ClickConfirm] true).
  - reflexivity.
  - repeat constructor.
Defined.

Lemma handle_all_app s l1 l2 : handle_all s (l1 ++ l2) = handle_all (handle_all s l1) l2.
Proof. apply fold_left_app. Qed.

Lemma handle_all_moves s moves :
  Forall (fun e => is_mouse_move e = true) moves -> handle_all s moves = s.
Proof.
  induction 1 as [|e moves He _ IH]; [reflexivity|].
  destruct e; try discriminate He. exact IH.
Qed.

(** X15.  Drawing a region.  In steps 1 and 2, once a frame is shown,
    pressing the button at [(x0, y0)], moving, and releasing it at
    [(x1, y1)] leaves the rectangle with these two corners, whichever
    way the mouse was dragged: its origin is the smaller coordinates and
    its width and height are the distances.  The confirm button is then
    enabled, and clicking it stores the rectangle as the region of the
    step, goes to the next step and forgets the drawing. *)
Theorem draw_and_confirm s x0 y0 moves x1 y1 :
  canvas_bound s = true ->
  current_roi_step s = 1 \/ current_roi_step s = 2 ->
  Forall (fun e => is_mouse_move e = true) moves ->
  let r := (Z.min x0 x1, Z.min y0 y1, Z.abs (x1 - x0), Z.abs (y1 - y0)) in
  let s1 := handle_all s (MouseDown x0 y0 :: moves ++ [MouseUp x1 y1]) in
  let s2 := handle s1 ClickConfirm in
  (current_roi_drawing s1 = Some r /\ btn_confirm_roi s1 = true
   /\ current_roi_step s1 = current_roi_step s
   /\ roi1 s1 = roi1 s /\ roi2 s1 = roi2 s)
  /\ (current_roi_drawing s2 = None /\ btn_confirm_roi s2 = false
      /\ current_roi_step s2 = current_roi_step s + 1
      /\ roi1 s2 = (if current_roi_step s =? 1 then Some r else roi1 s)
      /\ roi2 s2 = (if current_roi_step s =? 1 then roi2 s else Some r)).
Proof.
  intros Hb Hs Hm r s1 s2.
  assert (Hr : drawn_rectangle x0 y0 x1 y1 = r).
  { unfold drawn_rectangle, r. repeat f_equal; lia. }
  assert (E1 : s1 = on_mouse_up x1 y1 (on_mouse_down x0 y0 s)).
  { unfold s1. change (MouseDown x0 y0 :: moves ++ [MouseUp x1 y1])
      with ([MouseDown x0 y0] ++ moves ++ [MouseUp x1 y1]).
    rewrite !handle_all_app, (handle_all_moves _ moves Hm). cbn. rewrite Hb.
    unfold on_mouse_down at 1 3.
    destruct ((current_roi_step s =? 1) || (current_roi_step s =? 2));
      cbn; rewrite Hb; reflexivity. }
  unfold s2. rewrite E1. clear E1 s1 s2. unfold on_mouse_down.
  destruct Hs as [Hs|Hs]; rewrite Hs; cbn; rewrite Hr, ?Hs; cbn; rewrite ?Hs; cbn;
    repeat split; reflexivity.
Qed.

Lemma draw_and_confirm_witness :
  current_roi_drawing
    (handle_all (handle new_selector (SelectVideo "a.mp4" FrameShown))
       (MouseDown 50 20 :: [MouseMove 30 30; MouseMove 20 60] ++ [MouseUp 10 70]))
  = Some (10, 20, 40, 50)
  /\ roi1
       (handle
          (handle_all (handle new_selector (SelectVideo "a.mp4" FrameShown))
             (MouseDown 50 20 :: [MouseMove 30 30; MouseMove 20 60] ++ [MouseUp 10 70]))
          ClickConfirm)
     = Some (10, 20, 40, 50).
Proof.
  destruct (draw_and_confirm (handle new_selector (SelectVideo "a.mp4" FrameShown))
              50 20 [MouseMove 30 30; MouseMove 20 60] 10 70)
    as [(H1 & _) (_ & _ & _ & H2 & _)].
  - reflexivity.
  - left. reflexivity.
  - repeat constructor.
  - split; [exact H1|exact H2].
Defined.
